(** * webhook/hook: rule evaluation, parameter resolution and hook extraction

    A shallow embedding of the Go package [hook] (rules.go and the hook
    file) and the properties of it that the specification states.

    Go values of type [interface{}] are modelled by their dynamic type;
    maps are reference objects and live in a store, so that the in-place
    update of [ReplaceParameter] is an update of the store.  A run-time
    panic is an outcome of its own, distinct from every returned value. *)

From Stdlib Require Import ZArith Ascii String List Bool Lia.
From Stdlib Require Strings.Byte.
From stdpp Require Import base option list gmap strings.

Set Warnings "-register-all".

Local Open Scope string_scope.
Local Open Scope Z_scope.

(** ** Outcomes: a returned value or a run-time panic *)

Inductive panic : Type :=
| TypeAssertion     (* interface conversion: x.(T) with another dynamic type *)
| IndexOutOfRange   (* a[i] with i outside 0 <= i < len(a) *)
| NilDereference.   (* *p with p == nil *)

Inductive result (A : Type) : Type :=
| Ret (a : A)
| Panic (p : panic).
Arguments Ret {A} a.
Arguments Panic {A} p.

Definition bind {A B : Type} (m : result A) (k : A -> result B) : result B :=
  match m with
  | Ret a => k a
  | Panic p => Panic p
  end.

Notation "x <~ m ;; k" := (bind m (fun x => k))
  (at level 100, m at next level, right associativity).

(** ** Go values and the store of map objects *)

Definition loc := nat.

(** The dynamic types a value of type [interface{}] takes in this
    package: what the JSON decoder and the HTTP layer build, and the
    pointer to a map that the callers of [ReplaceParameter] pass. *)
Inductive value : Type :=
| VNil                     (* the nil interface *)
| VString (s : string)     (* string *)
| VNumber (n : string)     (* json.Number, a string type *)
| VBool (b : bool)         (* bool *)
| VInt (z : Z)             (* int *)
| VMap (l : loc)           (* map[string]interface{}: a reference to a map object *)
| VMapPtr (l : loc)        (* *map[string]interface{}: a pointer to a map *)
| VSlice (xs : list value). (* []interface{} *)

(** A map object is a finite map from keys to values.  A location that
    the store does not bind stands for the nil map: it reads as empty. *)
Abbreviation mapobj := (gmap string value).
Abbreviation store := (gmap loc (gmap string value)).

Definition deref (st : store) (l : loc) : mapobj := default ∅ (st !! l).

(** reflect.Kind, restricted to the kinds of [value]. *)
Inductive Kind : Type :=
| Invalid | String_ | Bool_ | Int_ | Map | Ptr | Slice.

Definition Kind_of (v : value) : Kind :=
  match v with
  | VNil => Invalid
  | VString _ | VNumber _ => String_
  | VBool _ => Bool_
  | VInt _ => Int_
  | VMap _ => Map
  | VMapPtr _ => Ptr
  | VSlice _ => Slice
  end.

Definition Kind_eqb (a b : Kind) : bool :=
  match a, b with
  | Invalid, Invalid | String_, String_ | Bool_, Bool_ | Int_, Int_
  | Map, Map | Ptr, Ptr | Slice, Slice => true
  | _, _ => false
  end.

(** [params == nil] *)
Definition is_nil (v : value) : bool :=
  match v with VNil => true | _ => false end.

(** [reflect.ValueOf(params).Len()], called on slices only. *)
Definition reflect_Len (v : value) : Z :=
  match v with
  | VSlice xs => Z.of_nat (length xs)
  | _ => 0
  end.

(** The type assertions [params.([]interface{})],
    [params.(map[string]interface{})] and the assertion to a pointer to
    such a map: each panics on a value of another dynamic type. *)
Definition assert_slice (v : value) : result (list value) :=
  match v with
  | VSlice xs => Ret xs
  | _ => Panic TypeAssertion
  end.

Definition assert_map (v : value) : result loc :=
  match v with
  | VMap l => Ret l
  | _ => Panic TypeAssertion
  end.

Definition assert_map_ptr (v : value) : result loc :=
  match v with
  | VMapPtr l => Ret l
  | _ => Panic TypeAssertion
  end.

(** [xs[index]] with [index] of type uint64: the bounds check compares
    the unsigned index with the length. *)
Definition index_slice (xs : list value) (index : Z) : result value :=
  if (0 <=? index) && (index <? Z.of_nat (length xs)) then
    match xs !! Z.to_nat index with
    | Some x => Ret x
    | None => Panic IndexOutOfRange
    end
  else Panic IndexOutOfRange.

(** ** strings.SplitN(s, ".", 2) and strconv.ParseUint(s, 10, 64) *)

(** [SplitN s] is [(p0, None)] when the slice [p] has the single element
    [p0 = s] (no dot in [s]) and [(p0, Some p1)] when [len(p) > 1]: [p0]
    is what precedes the first dot and [p1] what follows it. *)
Fixpoint SplitN (s : string) : string * option string :=
  match s with
  | EmptyString => (EmptyString, None)
  | String c s' =>
      if Ascii.eqb c "."%char then (EmptyString, Some s')
      else let '(p0, p1) := SplitN s' in (String c p0, p1)
  end.

Definition digit_value (c : ascii) : option Z :=
  let n := Z.of_N (N_of_ascii c) in
  if (48 <=? n) && (n <=? 57) then Some (n - 48) else None.

Fixpoint parse_digits (acc : Z) (s : string) : option Z :=
  match s with
  | EmptyString => Some acc
  | String c s' =>
      match digit_value c with
      | Some d => parse_digits (10 * acc + d) s'
      | None => None
      end
  end.

(** [ParseUint s] is [Some n] when [strconv.ParseUint(s, 10, 64)] returns
    [(n, nil)], and [None] when it returns an error: the empty string, a
    character that is no decimal digit (a sign included), or a value
    above 2^64 - 1. *)
Definition ParseUint (s : string) : option Z :=
  match s with
  | EmptyString => None
  | _ =>
      match parse_digits 0 s with
      | Some n => if n <? 2 ^ 64 then Some n else None
      | None => None
      end
  end.

(** [int(index)] for [index] of type uint64, with [int] of 64 bits: the
    conversion keeps the bits, so values from 2^63 on become negative. *)
Definition int_of_uint64 (index : Z) : Z :=
  if index <? 2 ^ 63 then index else index - 2 ^ 64.

(** ** GetParameter

    The function calls itself on [p[1]] only, which is shorter than [s].
    [GetParameter_body] is the body of the Go function with the
    recursive call as [rec]; [GetParameter_fuel] ties the knot by
    counting the length of the path down. *)
Section GetParameter_body.
Variable rec : string -> value -> result (value * bool).

Definition GetParameter_body (st : store) (s : string) (params : value)
    : result (value * bool) :=
  if is_nil params then Ret (VNil, false)
  else if Kind_eqb (Kind_of params) Slice then
    let paramsValueSliceLength := reflect_Len params in
    if 0 <? paramsValueSliceLength then
      match SplitN s with
      | (p0, Some p1) =>
          match ParseUint p0 with
          | Some index =>
              if paramsValueSliceLength <=? int_of_uint64 index
              then Ret (VNil, false)
              else
                xs <~ assert_slice params ;;
                x <~ index_slice xs index ;;
                rec p1 x
          | None => Ret (VNil, false)
          end
      | (_, None) =>
          match ParseUint s with
          | Some index =>
              if paramsValueSliceLength <=? int_of_uint64 index
              then Ret (VNil, false)
              else
                xs <~ assert_slice params ;;
                x <~ index_slice xs index ;;
                Ret (x, true)
          | None => Ret (VNil, false)
          end
      end
    else Ret (VNil, false)
  else
    match SplitN s with
    | (p0, Some p1) =>
        if Kind_eqb (Kind_of params) Map then
          l <~ assert_map params ;;
          match deref st l !! p0 with
          | Some pValue => rec p1 pValue
          | None => Ret (VNil, false)
          end
        else Ret (VNil, false)
    | (p0, None) =>
        l <~ assert_map params ;;
        match deref st l !! p0 with
        | Some pValue => Ret (pValue, true)
        | None => Ret (VNil, false)
        end
    end.
End GetParameter_body.

Fixpoint GetParameter_fuel (fuel : nat) (st : store) (s : string)
    (params : value) {struct fuel} : result (value * bool) :=
  match fuel with
  | O => Ret (VNil, false)
  | S fuel' => GetParameter_body (GetParameter_fuel fuel' st) st s params
  end.

Definition GetParameter (st : store) (s : string) (params : value)
    : result (value * bool) :=
  GetParameter_fuel (S (String.length s)) st s params.

(** ** ReplaceParameter

    The result is the boolean the Go function returns together with the
    store after the call: the assignment to the key [p[0]] of the map
    that [params] points to updates the map object in place. *)
Section ReplaceParameter_body.
Variable rec : store -> string -> value -> result (bool * store).

Definition ReplaceParameter_body (st : store) (s : string)
    (params : value) (value_ : value) : result (bool * store) :=
  if is_nil params then Ret (false, st)
  else if Kind_eqb (Kind_of params) Slice then
    let paramsValueSliceLength := reflect_Len params in
    if 0 <? paramsValueSliceLength then
      match SplitN s with
      | (p0, Some p1) =>
          match ParseUint p0 with
          | Some index =>
              if paramsValueSliceLength <=? int_of_uint64 index
              then Ret (false, st)
              else
                xs <~ assert_slice params ;;
                x <~ index_slice xs index ;;
                rec st p1 x
          | None => Ret (false, st)
          end
      | (_, None) => Ret (false, st)
      end
    else Ret (false, st)
  else
    match SplitN s with
    | (p0, Some p1) =>
        l <~ assert_map params ;;
        match deref st l !! p0 with
        | Some pValue => rec st p1 pValue
        | None => Ret (false, st)
        end
    | (p0, None) =>
        l <~ assert_map_ptr params ;;
        match deref st l !! p0 with
        | Some _ => Ret (true, <[l := <[p0 := value_]> (deref st l)]> st)
        | None => Ret (false, st)
        end
    end.
End ReplaceParameter_body.

Fixpoint ReplaceParameter_fuel (fuel : nat) (st : store) (s : string)
    (params : value) (value_ : value) {struct fuel} : result (bool * store) :=
  match fuel with
  | O => Ret (false, st)
  | S fuel' =>
      ReplaceParameter_body
        (fun st' s' params' => ReplaceParameter_fuel fuel' st' s' params' value_)
        st s params value_
  end.

Definition ReplaceParameter (st : store) (s : string) (params : value)
    (value_ : value) : result (bool * store) :=
  ReplaceParameter_fuel (S (String.length s)) st s params value_.

(** ** Constants, arguments and errors *)

Definition SourceHeader : string := "header".
Definition SourceQuery : string := "url".
Definition SourcePayload : string := "payload".
Definition SourceString : string := "string".
Definition SourceEntirePayload : string := "entire-payload".
Definition SourceEntireQuery : string := "entire-query".
Definition SourceEntireHeaders : string := "entire-headers".

Definition EnvNamespace : string := "HOOK_".

Definition MatchValue : string := "value".
Definition MatchRegex : string := "regex".
Definition MatchHashSHA1 : string := "payload-hash-sha1".

Record Argument : Type := mkArgument {
  Source : string;
  Name : string
}.

(** The error types of the package; [LibraryError] is an error value
    that a library call returned (a regular expression that does not
    compile).  The Go value [nil] of type [error] is [None]. *)
Inductive error : Type :=
| SignatureError (Signature : string)
| ArgumentError (Argument_ : Argument)
| SourceError (Argument_ : Argument)
| ParseError (Err : string)
| LibraryError (msg : string).

Definition error_is_nil (err : option error) : bool :=
  match err with None => true | Some _ => false end.

(** ** The rule tree *)

Record MatchRule : Type := mkMatchRule {
  Type_ : string;
  Regex : string;
  Secret : string;
  Value : string;
  Parameter_ : Argument
}.

(** [Rules] has four pointer fields, [None] for a nil pointer;
    [AndRule] and [OrRule] are slices of [Rules], [NotRule] is [Rules]. *)
Inductive Rules : Type :=
| mkRules (And : option (list Rules)) (Or : option (list Rules))
          (Not : option Rules) (Match : option MatchRule).

Definition Rules_And (r : Rules) : option (list Rules) :=
  match r with mkRules a _ _ _ => a end.
Definition Rules_Or (r : Rules) : option (list Rules) :=
  match r with mkRules _ o _ _ => o end.
Definition Rules_Not (r : Rules) : option Rules :=
  match r with mkRules _ _ n _ => n end.
Definition Rules_Match (r : Rules) : option MatchRule :=
  match r with mkRules _ _ _ m => m end.

Record Hook : Type := mkHook {
  ID : string;
  ExecuteCommand : string;
  PassEnvironmentToCommand : list Argument;
  PassArgumentsToCommand : list Argument;
  JSONStringParameters : list Argument;
  TriggerRule : option Rules
}.

(** ** encoding/hex and string slicing *)

Definition hextable : string := "0123456789abcdef".

Definition hex_digit (n : N) : ascii :=
  match String.get (N.to_nat n) hextable with
  | Some c => c
  | None => "0"%char
  end.

(** hex.EncodeToString: two lower-case digits per byte. *)
Fixpoint hex_EncodeToString (src : list Byte.byte) : string :=
  match src with
  | [] => EmptyString
  | b :: src' =>
      let n := Byte.to_N b in
      String (hex_digit (N.div n 16))
        (String (hex_digit (N.modulo n 16)) (hex_EncodeToString src'))
  end.

(** [s[n:]] *)
Fixpoint string_from (n : nat) (s : string) : string :=
  match n, s with
  | O, _ => s
  | S n', String _ s' => string_from n' s'
  | S _, EmptyString => EmptyString
  end.

(** ** The rule loops, over an arbitrary evaluation of one child *)
Section Loops.
Variable eval : Rules -> result (bool * option error).

(** The body of [for _, v := range r] in AndRule.Evaluate, from the
    current value of [res]. *)
Fixpoint AndRule_loop (res : bool) (r : list Rules)
    : result (bool * option error) :=
  match r with
  | [] => Ret (res, None)
  | v :: r' =>
      r_ <~ eval v ;;
      let '(rv, err) := r_ in
      match err with
      | Some _ => Ret (false, err)
      | None =>
          let res := res && rv in
          if Bool.eqb res false then Ret (res, None)
          else AndRule_loop res r'
      end
  end.

Fixpoint OrRule_loop (res : bool) (r : list Rules)
    : result (bool * option error) :=
  match r with
  | [] => Ret (res, None)
  | v :: r' =>
      r_ <~ eval v ;;
      let '(rv, err) := r_ in
      match err with
      | Some _ => Ret (false, err)
      | None =>
          let res := res || rv in
          if Bool.eqb res true then Ret (res, None)
          else OrRule_loop res r'
      end
  end.
End Loops.

(** ** The functions of the package that call into Go libraries

    The library functions are taken as they are: [Sprintf_v st v] is
    [fmt.Sprintf("%v", v)], [json_Marshal st p] is [json.Marshal(p)] for
    a pointer [p] to a map ([None] when it returns an error),
    [regexp_MatchString] is [regexp.MatchString], [HMAC_SHA1 key msg] is
    the sum of [hmac.New(sha1.New, key)] after [msg] was written to it,
    and [json_Decode st s] is what a decoder with [UseNumber] decodes
    from [s] into a variable of type [map[string]interface{}]: the
    message of the error, or the decoded value and the store with the
    map objects it allocated. *)
Section Hook.
Variable Sprintf_v : store -> value -> string.
Variable json_Marshal : store -> option loc -> option string.
Variable regexp_MatchString : string -> string -> bool * option error.
Variable HMAC_SHA1 : list Byte.byte -> list Byte.byte -> list Byte.byte.
Variable json_Decode : store -> string -> string + value * store.

(** *** CheckPayloadSignature

    [mac.Write] is the Write of a hash.Hash, which never returns an
    error: [err] is nil at the last return.  [hmac.Equal] holds of two
    byte slices exactly when they are equal. *)
Definition CheckPayloadSignature (payload : list Byte.byte)
    (secret signature : string) : string * option error :=
  let signature :=
    if String.prefix "sha1=" signature then string_from 5 signature
    else signature in
  let expectedMAC :=
    hex_EncodeToString (HMAC_SHA1 (list_byte_of_string secret) payload) in
  if negb (String.eqb signature expectedMAC)
  then (expectedMAC, Some (SignatureError expectedMAC))
  else (expectedMAC, None).

(** *** ExtractParameterAsString and Argument.Get *)
Definition ExtractParameterAsString (st : store) (s : string)
    (params : value) : result (string * bool) :=
  r_ <~ GetParameter st s params ;;
  let '(pValue, ok) := r_ in
  if (ok : bool) then Ret (Sprintf_v st pValue, true)
  else Ret (EmptyString, false).

(** [headers], [query] and [payload] are pointers to maps, [None] for
    nil; [*source] is the map itself. *)
Definition Argument_Get (st : store) (ha : Argument)
    (headers query payload : option loc) : result (string * bool) :=
  let from_source (source : option loc) :=
    match source with
    | Some l => ExtractParameterAsString st (Name ha) (VMap l)
    | None => Ret (EmptyString, false)
    end in
  let marshal (p : option loc) :=
    match json_Marshal st p with
    | None => Ret (EmptyString, false)
    | Some r => Ret (r, true)
    end in
  if String.eqb (Source ha) SourceHeader then from_source headers
  else if String.eqb (Source ha) SourceQuery then from_source query
  else if String.eqb (Source ha) SourcePayload then from_source payload
  else if String.eqb (Source ha) SourceString then Ret (Name ha, true)
  else if String.eqb (Source ha) SourceEntirePayload then marshal payload
  else if String.eqb (Source ha) SourceEntireHeaders then marshal headers
  else if String.eqb (Source ha) SourceEntireQuery then marshal query
  else from_source None.

(** *** Rule evaluation, for one request

    [body] is a pointer to the raw body, [None] for nil. *)
Section Evaluate.
Variable st : store.
Variables headers query payload : option loc.
Variable body : option (list Byte.byte).

Definition MatchRule_Evaluate (r : MatchRule)
    : result (bool * option error) :=
  r_ <~ Argument_Get st (Parameter_ r) headers query payload ;;
  let '(arg, ok) := r_ in
  if (ok : bool) then
    if String.eqb (Type_ r) MatchValue then
      Ret (String.eqb arg (Value r), None)
    else if String.eqb (Type_ r) MatchRegex then
      Ret (regexp_MatchString (Regex r) arg)
    else if String.eqb (Type_ r) MatchHashSHA1 then
      match body with
      | Some b =>
          let '(_, err) := CheckPayloadSignature b (Secret r) arg in
          Ret (error_is_nil err, err)
      | None => Panic NilDereference
      end
    else Ret (false, None)
  else Ret (false, None).

Fixpoint Rules_Evaluate (r : Rules) : result (bool * option error) :=
  match r with
  | mkRules (Some and_) _ _ _ => AndRule_loop Rules_Evaluate true and_
  | mkRules None (Some or_) _ _ => OrRule_loop Rules_Evaluate false or_
  | mkRules None None (Some not_) _ =>
      r_ <~ Rules_Evaluate not_ ;;
      let '(rv, err) := r_ in
      Ret (negb rv, err)
  | mkRules None None None (Some match_) => MatchRule_Evaluate match_
  | mkRules None None None None => Ret (false, None)
  end.

Definition AndRule_Evaluate (r : list Rules) : result (bool * option error) :=
  AndRule_loop Rules_Evaluate true r.

Definition OrRule_Evaluate (r : list Rules) : result (bool * option error) :=
  OrRule_loop Rules_Evaluate false r.

Definition NotRule_Evaluate (r : Rules) : result (bool * option error) :=
  r_ <~ Rules_Evaluate r ;;
  let '(rv, err) := r_ in
  Ret (negb rv, err).
End Evaluate.

(** *** Hook extraction *)

(** The loop of ParseJSONParameters over [h.JSONStringParameters],
    from the element [i] on; the store is threaded through, since the
    decoder allocates and ReplaceParameter assigns. *)
Fixpoint ParseJSONParameters_loop (st : store) (params : list Argument)
    (headers query payload : option loc) : result (option error * store) :=
  match params with
  | [] => Ret (None, st)
  | p :: params' =>
      r_ <~ Argument_Get st p headers query payload ;;
      let '(arg, ok) := r_ in
      if (ok : bool) then
        match json_Decode st arg with
        | inl err => Ret (Some (ParseError err), st)
        | inr (newArg, st1) =>
            let source :=
              if String.eqb (Source p) SourceHeader then headers
              else if String.eqb (Source p) SourcePayload then payload
              else if String.eqb (Source p) SourceQuery then query
              else None in
            match source with
            | Some l =>
                r_ <~ ReplaceParameter st1 (Name p) (VMapPtr l) newArg ;;
                let '(_, st2) := r_ in
                ParseJSONParameters_loop st2 params' headers query payload
            | None => Ret (Some (SourceError p), st1)
            end
        end
      else Ret (Some (ArgumentError p), st)
  end.

Definition ParseJSONParameters (h : Hook) (st : store)
    (headers query payload : option loc) : result (option error * store) :=
  ParseJSONParameters_loop st (JSONStringParameters h) headers query payload.

(** The loop of ExtractCommandArguments over
    [h.PassArgumentsToCommand], from the current value of [args]. *)
Fixpoint ExtractCommandArguments_loop (st : store)
    (headers query payload : option loc) (args : list string)
    (params : list Argument) : result (list string * option error) :=
  match params with
  | [] => Ret (args, None)
  | p :: params' =>
      r_ <~ Argument_Get st p headers query payload ;;
      let '(arg, ok) := r_ in
      if (ok : bool) then
        ExtractCommandArguments_loop st headers query payload
          (args ++ [arg])%list params'
      else Ret ((args ++ [EmptyString])%list, Some (ArgumentError p))
  end.

Definition ExtractCommandArguments (h : Hook) (st : store)
    (headers query payload : option loc)
    : result (list string * option error) :=
  let args := [] in
  let args := (args ++ [ExecuteCommand h])%list in
  ExtractCommandArguments_loop st headers query payload args
    (PassArgumentsToCommand h).

Fixpoint ExtractCommandArgumentsForEnv_loop (st : store)
    (headers query payload : option loc) (args : list string)
    (params : list Argument) : result (list string * option error) :=
  match params with
  | [] => Ret (args, None)
  | p :: params' =>
      r_ <~ Argument_Get st p headers query payload ;;
      let '(arg, ok) := r_ in
      if (ok : bool) then
        ExtractCommandArgumentsForEnv_loop st headers query payload
          (args ++ [EnvNamespace +:+ Name p +:+ "=" +:+ arg])%list params'
      else Ret (args, Some (ArgumentError p))
  end.

Definition ExtractCommandArgumentsForEnv (h : Hook) (st : store)
    (headers query payload : option loc)
    : result (list string * option error) :=
  ExtractCommandArgumentsForEnv_loop st headers query payload []
    (PassEnvironmentToCommand h).
End Hook.

(** [strips_to signature sig]: [sig] is [signature] without its optional
    prefix "sha1=". *)
Definition strips_to (signature sig : string) : Prop :=
  signature = "sha1=" +:+ sig
  \/ (String.prefix "sha1=" signature = false /\ signature = sig).

(** [splice_target p headers query payload l]: the source of the
    argument [p] is one of the three domains of ParseJSONParameters and
    the pointer to that domain is [l]. *)
Definition splice_target (p : Argument) (headers query payload : option loc)
    (l : loc) : Prop :=
  (Source p = SourceHeader /\ headers = Some l)
  \/ (Source p = SourcePayload /\ payload = Some l)
  \/ (Source p = SourceQuery /\ query = Some l).

(** ** Sample requests and library instances, for the concrete cases *)

(** The decoded payload [{"a": {"b": 1}}]: the map at location 0 binds
    [a] to the map at location 1, which binds [b] to 1. *)
Definition st_ab : store :=
  {[ 0%nat := {[ "a" := VMap 1%nat ]} ; 1%nat := {[ "b" := VInt 1 ]} ]}.

(** The payload [{"a": ["{}"]}]. *)
Definition st_seq : store :=
  {[ 0%nat := {[ "a" := VSlice [VString "{}"] ]} ]}.

(** The headers [{"X-Sig": "sha1=00"}] at location 0 and the payload
    [{"ref": "main", "n": "x"}] at location 1. *)
Definition st_req : store :=
  {[ 0%nat := {[ "X-Sig" := VString "sha1=00" ]} ;
     1%nat := {[ "ref" := VString "main" ; "n" := VString "x" ]} ]}.

(** fmt's %v on the scalars: a string and a json.Number print as they
    are, a boolean as its name. *)
Definition Sprintf_v_scalar (st : store) (v : value) : string :=
  match v with
  | VString s => s
  | VNumber n => n
  | VBool true => "true"
  | VBool false => "false"
  | VNil => "<nil>"
  | _ => "?"
  end.

(** A marshaller that encodes the nil pointer and fails on the rest. *)
Definition json_Marshal_nil (st : store) (p : option loc) : option string :=
  match p with
  | None => Some "null"
  | Some _ => None
  end.

(** A matcher for the patterns that are plain text to be found at the
    start of the input. *)
Definition regexp_MatchString_prefix (pattern s : string)
    : bool * option error :=
  (String.prefix pattern s, None).

(** A keyed function of the message that stands for the MAC when one is
    needed: the key followed by the length of the message. *)
Definition HMAC_SHA1_toy (key msg : list Byte.byte) : list Byte.byte :=
  (key ++ [default Byte.x00 (Byte.of_N (N.of_nat (length msg) mod 256))])%list.

(** A decoder for the empty object. *)
Definition json_Decode_empty (st : store) (s : string)
    : string + value * store :=
  if String.eqb s "{}" then
    let l := fresh (dom st) in inr (VMap l, <[l := ∅]> st)
  else inl "invalid character".

(** The body "hello". *)
Definition body_hello : list Byte.byte := list_byte_of_string "hello".

(** Match rules on the request [st_req]: [ref] is "main", [ref] is
    "other", the signature of the header X-Sig, a rule of an unknown
    type, and a rule whose path goes below the string at [ref]. *)
Definition match_ref_main : MatchRule :=
  mkMatchRule "value" "" "" "main" (mkArgument "payload" "ref").
Definition match_ref_other : MatchRule :=
  mkMatchRule "value" "" "" "other" (mkArgument "payload" "ref").
Definition match_signature : MatchRule :=
  mkMatchRule "payload-hash-sha1" "" "s" "" (mkArgument "header" "X-Sig").
Definition match_unknown : MatchRule :=
  mkMatchRule "contains" "" "" "main" (mkArgument "payload" "ref").
Definition match_below_string : MatchRule :=
  mkMatchRule "value" "" "" "main" (mkArgument "payload" "ref.b").

(** A rule of an unknown type whose path goes below the string at
    [ref]. *)
Definition match_unknown_below_string : MatchRule :=
  mkMatchRule "contains" "" "" "main" (mkArgument "payload" "ref.b").

Definition rule_of (m : MatchRule) : Rules := mkRules None None None (Some m).

(** A node with the four fields populated. *)
Definition rule_all_fields : Rules :=
  mkRules (Some [rule_of match_ref_main]) (Some [])
          (Some (rule_of match_ref_main)) (Some match_ref_other).

(** A hook whose second argument, and second environment entry, names
    a key that the payload does not have. *)
Definition hook_args : Hook :=
  mkHook "deploy" "/bin/run"
    [mkArgument "payload" "n"; mkArgument "payload" "missing";
     mkArgument "payload" "ref"]
    [mkArgument "payload" "ref"; mkArgument "payload" "missing";
     mkArgument "payload" "n"]
    [] None.

(** A hook that decodes the first element of the sequence at [a]. *)
Definition hook_json : Hook :=
  mkHook "deploy" "/bin/run" [] [] [mkArgument "payload" "a.0"] None.

(** Evaluation and resolution on the request [st_req], whose body is
    "hello". *)
Abbreviation Eval_sample :=
  (Rules_Evaluate Sprintf_v_scalar json_Marshal_nil regexp_MatchString_prefix
     HMAC_SHA1_toy st_req (Some 0%nat) None (Some 1%nat) (Some body_hello)).
Abbreviation Get_sample :=
  (fun a => Argument_Get Sprintf_v_scalar json_Marshal_nil st_req a
              (Some 0%nat) None (Some 1%nat)).

(** ** The list of hooks (Hooks.Match, Hooks.MatchAll)

    A pointer [&( *h)[i]] to an element of the slice is the index [i]. *)

(** The loop of Hooks.Match from the index [i] on, over the rest of the
    slice. *)
Fixpoint Hooks_Match_loop (i : nat) (h : list Hook) (id : string)
    : option nat :=
  match h with
  | [] => None
  | x :: h' =>
      if String.eqb (ID x) id then Some i
      else Hooks_Match_loop (S i) h' id
  end.

Definition Hooks_Match (h : list Hook) (id : string) : option nat :=
  Hooks_Match_loop 0 h id.

(** The loop of Hooks.MatchAll from the index [i] on, with the current
    value of [matchedHooks]. *)
Fixpoint Hooks_MatchAll_loop (i : nat) (h : list Hook) (id : string)
    (matchedHooks : list nat) : list nat :=
  match h with
  | [] => matchedHooks
  | x :: h' =>
      if String.eqb (ID x) id
      then Hooks_MatchAll_loop (S i) h' id (matchedHooks ++ [i])%list
      else Hooks_MatchAll_loop (S i) h' id matchedHooks
  end.

(** The nil slice and the empty slice are both the empty list. *)
Definition Hooks_MatchAll (h : list Hook) (id : string) : list nat :=
  let matchedHooks := Hooks_MatchAll_loop 0 h id [] in
  if (0 <? length matchedHooks)%nat then matchedHooks else [].

(** The indices of the hooks of [h] whose ID is [id], in the order of
    the slice. *)
Definition has_ID (h : list Hook) (id : string) (i : nat) : bool :=
  match h !! i with
  | Some x => String.eqb (ID x) id
  | None => false
  end.

Definition indices_of (h : list Hook) (id : string) : list nat :=
  List.filter (has_ID h id) (seq 0 (length h)).

(** ** header.go *)

Record Header : Type := mkHeader {
  Header_Name : string;
  Header_Value : string
}.

(** [strings.SplitN(s, sep, 2)] for a separator of one character, with
    the convention of [SplitN]. *)
Fixpoint SplitN_at (sep : ascii) (s : string) : string * option string :=
  match s with
  | EmptyString => (EmptyString, None)
  | String c s' =>
      if Ascii.eqb c sep then (EmptyString, Some s')
      else let '(p0, p1) := SplitN_at sep s' in (String c p0, p1)
  end.

(** strings.Join *)
Fixpoint strings_Join (elems : list string) (sep : string) : string :=
  match elems with
  | [] => EmptyString
  | [x] => x
  | x :: elems' => x +:+ sep +:+ strings_Join elems' sep
  end.

(** ResponseHeaders.String; fmt.Sprintf("%s=%s", name, value) is the
    name, "=" and the value. *)
Definition ResponseHeaders_String (h : list Header) : string :=
  if (length h =? 0)%nat then "name=value"
  else
    let result :=
      map (fun responseHeader =>
             Header_Name responseHeader +:+ "=" +:+ Header_Value responseHeader)
          h in
    strings_Join result ", ".

(** ResponseHeaders.Set: the headers after the call and the error. *)
Definition ResponseHeaders_Set (h : list Header) (value_ : string)
    : list Header * option error :=
  match SplitN_at "="%char value_ with
  | (p0, Some p1) => ((h ++ [mkHeader p0 p1])%list, None)
  | (_, None) =>
      (h, Some (LibraryError "header flag must be in name=value format"))
  end.

(** The node with only Not populated. *)
Definition not_node (r : Rules) : Rules := mkRules None None (Some r) None.

(** The match rules that the evaluation of a node can reach: those of
    the first populated field, in the order And, Or, Not, Match. *)
Fixpoint Rules_leaves (r : Rules) : list MatchRule :=
  match r with
  | mkRules (Some and_) _ _ _ => flat_map Rules_leaves and_
  | mkRules None (Some or_) _ _ => flat_map Rules_leaves or_
  | mkRules None None (Some not_) _ => Rules_leaves not_
  | mkRules None None None (Some match_) => [match_]
  | mkRules None None None None => []
  end.

(** Three hooks, two of them with the same ID. *)
Definition hooks_sample : list Hook :=
  [mkHook "build" "/bin/build" [] [] [] None;
   mkHook "deploy" "/bin/run" [] [] [] None;
   mkHook "build" "/bin/other" [] [] [] None].

(** The headers [{"a": "{}"}] at location 0. *)
Definition st_json : store :=
  {[ 0%nat := {[ "a" := VString "{}" ]} ]}.

(** A hook that decodes the header [a]. *)
Definition hook_json_header : Hook :=
  mkHook "deploy" "/bin/run" [] [] [mkArgument "header" "a"] None.

(** A hook that decodes a key that the payload does not have. *)
Definition hook_json_missing : Hook :=
  mkHook "deploy" "/bin/run" [] [] [mkArgument "payload" "missing"] None.

(** The store [st_json] after the header [a] was set to 2. *)
Definition st_json_2 : store :=
  <[0%nat := <["a" := VInt 2]> (deref st_json 0%nat)]> st_json.

(** * Properties *)

(** ** The recursion on the path is well founded *)

Lemma SplitN_shorter (s p0 p1 : string) :
  SplitN s = (p0, Some p1) -> (String.length p1 < String.length s)%nat.
Proof.
  revert p0 p1. induction s as [|c s IH]; intros p0 p1; simpl.
  - discriminate.
  - destruct (Ascii.eqb c "."%char).
    + intros [= _ <-]. lia.
    + destruct (SplitN s) as [q0 q1] eqn:E. intros [= _ ->].
      specialize (IH q0 p1 eq_refl). lia.
Qed.

Lemma SplitN_no_dot (s p0 : string) :
  SplitN s = (p0, None) -> p0 = s.
Proof.
  revert p0. induction s as [|c s IH]; intros p0; simpl.
  - now intros [= <-].
  - destruct (Ascii.eqb c "."%char); [discriminate|].
    destruct (SplitN s) as [q0 q1] eqn:E. intros [= <- ->].
    now rewrite (IH q0 eq_refl).
Qed.

Lemma GetParameter_body_ext (rec1 rec2 : string -> value -> result (value * bool))
    (st : store) (s : string) (params : value) :
  (forall s' v, (String.length s' < String.length s)%nat -> rec1 s' v = rec2 s' v) ->
  GetParameter_body rec1 st s params = GetParameter_body rec2 st s params.
Proof.
  intros Hrec. unfold GetParameter_body.
  destruct (SplitN s) as [p0 [p1|]] eqn:E; [|reflexivity].
  pose proof (SplitN_shorter _ _ _ E) as Hlt.
  repeat match goal with
  | |- context [if ?b then _ else _] => destruct b; try reflexivity
  | |- context [match ?o with Some _ => _ | None => _ end] =>
      destruct o; try reflexivity
  | |- context [bind ?m _] => destruct m; simpl; try reflexivity
  end; now apply Hrec.
Qed.

Lemma GetParameter_fuel_enough (st : store) (fuel1 fuel2 : nat) (s : string)
    (params : value) :
  (String.length s < fuel1)%nat -> (String.length s < fuel2)%nat ->
  GetParameter_fuel fuel1 st s params = GetParameter_fuel fuel2 st s params.
Proof.
  revert fuel2 s params.
  induction fuel1 as [|fuel1 IH]; intros fuel2 s params H1 H2; [lia|].
  destruct fuel2 as [|fuel2]; [lia|]. simpl.
  apply GetParameter_body_ext. intros s' v Hlt. apply IH; lia.
Qed.

(** The equation of the Go function: its body, calling itself. *)
Lemma GetParameter_eq (st : store) (s : string) (params : value) :
  GetParameter st s params = GetParameter_body (GetParameter st) st s params.
Proof.
  unfold GetParameter at 1. simpl.
  apply GetParameter_body_ext. intros s' v Hlt.
  unfold GetParameter. apply GetParameter_fuel_enough; lia.
Qed.

Lemma ReplaceParameter_body_ext
    (rec1 rec2 : store -> string -> value -> result (bool * store))
    (st : store) (s : string) (params v : value) :
  (forall st' s' x, (String.length s' < String.length s)%nat ->
                    rec1 st' s' x = rec2 st' s' x) ->
  ReplaceParameter_body rec1 st s params v
  = ReplaceParameter_body rec2 st s params v.
Proof.
  intros Hrec. unfold ReplaceParameter_body.
  destruct (SplitN s) as [p0 [p1|]] eqn:E; [|reflexivity].
  pose proof (SplitN_shorter _ _ _ E) as Hlt.
  repeat match goal with
  | |- context [if ?b then _ else _] => destruct b; try reflexivity
  | |- context [match ?o with Some _ => _ | None => _ end] =>
      destruct o; try reflexivity
  | |- context [bind ?m _] => destruct m; simpl; try reflexivity
  end; now apply Hrec.
Qed.

Lemma ReplaceParameter_fuel_enough (fuel1 fuel2 : nat) (st : store)
    (s : string) (params v : value) :
  (String.length s < fuel1)%nat -> (String.length s < fuel2)%nat ->
  ReplaceParameter_fuel fuel1 st s params v
  = ReplaceParameter_fuel fuel2 st s params v.
Proof.
  revert fuel2 st s params.
  induction fuel1 as [|fuel1 IH]; intros fuel2 st s params H1 H2; [lia|].
  destruct fuel2 as [|fuel2]; [lia|]. simpl.
  apply ReplaceParameter_body_ext. intros st' s' x Hlt. apply IH; lia.
Qed.

Lemma ReplaceParameter_eq (st : store) (s : string) (params v : value) :
  ReplaceParameter st s params v
  = ReplaceParameter_body (fun st' s' x => ReplaceParameter st' s' x v)
      st s params v.
Proof.
  unfold ReplaceParameter at 1. simpl.
  apply ReplaceParameter_body_ext. intros st' s' x Hlt.
  unfold ReplaceParameter. apply ReplaceParameter_fuel_enough; lia.
Qed.

(** ** The parameter resolver *)

Ltac Zbool :=
  repeat match goal with
  | H : (_ <? _) = true |- _ => apply Z.ltb_lt in H
  | H : (_ <? _) = false |- _ => apply Z.ltb_ge in H
  | H : (_ <=? _) = true |- _ => apply Z.leb_le in H
  | H : (_ <=? _) = false |- _ => apply Z.leb_gt in H
  | H : (_ && _) = true |- _ => apply andb_true_iff in H as [? ?]
  end.

(** On a slice (of a length that an [int] holds), a last segment that
    is an index below the length finds the element, and one that is no
    index, or an index from the length to 2^63 - 1, finds nothing. *)
Lemma GetParameter_slice_last (st : store) (s : string) (xs : list value)
    (index : Z) (x : value) :
  Z.of_nat (length xs) < 2 ^ 63 ->
  SplitN s = (s, None) -> ParseUint s = Some index ->
  xs !! Z.to_nat index = Some x ->
  GetParameter st s (VSlice xs) = Ret (x, true).
Proof.
  intros Hint64 Hs Hp Hx. rewrite GetParameter_eq. unfold GetParameter_body. simpl.
  assert (Hlen : (Z.to_nat index < length xs)%nat)
    by (eapply lookup_lt_Some; eassumption).
  assert (H0 : 0 <= index).
  { unfold ParseUint in Hp. destruct s; [discriminate|].
    destruct (parse_digits 0 (String a s)) as [n|] eqn:E; [|discriminate].
    destruct (n <? 2 ^ 64) eqn:E64; [|discriminate].
    injection Hp as <-.
    clear -E. assert (G : forall t acc n, 0 <= acc -> parse_digits acc t = Some n -> 0 <= n).
    { induction t as [|c t IH]; intros acc m Ha; simpl.
      - intros [= <-]. exact Ha.
      - unfold digit_value.
        destruct ((48 <=? Z.of_N (N_of_ascii c)) && (Z.of_N (N_of_ascii c) <=? 57)) eqn:D;
          [|discriminate].
        Zbool. apply IH. lia. }
    eapply G; [|exact E]. lia. }
  destruct (0 <? Z.of_nat (length xs)) eqn:E0; [|Zbool; lia].
  rewrite Hs, Hp.
  assert (Hint : int_of_uint64 index = index).
  { unfold int_of_uint64. destruct (index <? 2 ^ 63) eqn:E; [reflexivity|].
    Zbool. lia. }
  rewrite Hint.
  destruct (Z.of_nat (length xs) <=? index) eqn:E1; [Zbool; lia|]. simpl.
  unfold index_slice.
  destruct ((0 <=? index) && (index <? Z.of_nat (length xs))) eqn:E2.
  - now rewrite Hx.
  - apply andb_false_iff in E2 as [E2|E2]; Zbool; lia.
Qed.

Lemma GetParameter_slice_not_index (st : store) (s : string) (xs : list value) :
  SplitN s = (s, None) -> ParseUint s = None ->
  GetParameter st s (VSlice xs) = Ret (VNil, false).
Proof.
  intros Hs Hp. rewrite GetParameter_eq. unfold GetParameter_body. simpl.
  rewrite Hs, Hp. now destruct (0 <? Z.of_nat (length xs)).
Qed.

Lemma GetParameter_slice_out_of_range (st : store) (s : string)
    (xs : list value) (index : Z) :
  SplitN s = (s, None) -> ParseUint s = Some index ->
  Z.of_nat (length xs) <= index < 2 ^ 63 ->
  GetParameter st s (VSlice xs) = Ret (VNil, false).
Proof.
  intros Hs Hp [Hlo Hhi]. rewrite GetParameter_eq. unfold GetParameter_body.
  simpl. rewrite Hs, Hp.
  destruct (0 <? Z.of_nat (length xs)); [|reflexivity].
  unfold int_of_uint64. destruct (index <? 2 ^ 63) eqn:E; [|Zbool; lia].
  destruct (Z.of_nat (length xs) <=? index) eqn:E1; [reflexivity|Zbool; lia].
Qed.

(** On a map, a last segment finds the value of the key when the map
    has it, and nothing otherwise. *)
Lemma GetParameter_map_last (st : store) (s : string) (l : loc) :
  SplitN s = (s, None) ->
  GetParameter st s (VMap l)
  = match deref st l !! s with
    | Some pValue => Ret (pValue, true)
    | None => Ret (VNil, false)
    end.
Proof.
  intros Hs. rewrite GetParameter_eq. unfold GetParameter_body. simpl.
  now rewrite Hs.
Qed.

(** A pointer to a map and a path with a dot: the assertion to a map on
    line 239 panics, whatever the map holds. *)
Lemma ReplaceParameter_pointer_dotted (st : store) (s p0 p1 : string)
    (l : loc) (v : value) :
  SplitN s = (p0, Some p1) ->
  ReplaceParameter st s (VMapPtr l) v = Panic TypeAssertion.
Proof.
  intros Hs. rewrite ReplaceParameter_eq. unfold ReplaceParameter_body.
  simpl. now rewrite Hs.
Qed.

(** A pointer to a map and a path without a dot: the key is assigned
    when the map has it, and only then. *)
Lemma ReplaceParameter_pointer_last (st : store) (s : string) (l : loc)
    (v : value) :
  SplitN s = (s, None) ->
  ReplaceParameter st s (VMapPtr l) v
  = match deref st l !! s with
    | Some _ => Ret (true, <[l := <[s := v]> (deref st l)]> st)
    | None => Ret (false, st)
    end.
Proof.
  intros Hs. rewrite ReplaceParameter_eq. unfold ReplaceParameter_body.
  simpl. now rewrite Hs.
Qed.

(** What does hold of Set then Get: at the top level of the map that the
    pointer addresses, an existing key is replaced and read back. *)
Lemma ReplaceParameter_then_GetParameter (st : store) (s : string) (l : loc)
    (old v : value) :
  SplitN s = (s, None) -> deref st l !! s = Some old ->
  exists st', ReplaceParameter st s (VMapPtr l) v = Ret (true, st')
              /\ GetParameter st' s (VMap l) = Ret (v, true).
Proof.
  intros Hs Hold. eexists. split.
  - rewrite (ReplaceParameter_pointer_last _ _ _ _ Hs), Hold. reflexivity.
  - rewrite (GetParameter_map_last _ _ _ Hs). unfold deref at 1.
    rewrite lookup_insert_eq. simpl. now rewrite lookup_insert_eq.
Qed.

(** C1. On the tree [{a:{b:1}}], GetParameter("a.b") returns (1, true),
    but ReplaceParameter("a.b", 2) does not return true: called with the
    pointer to the map, as its comment asks, it panics on the assertion
    of line 239, and called with the map itself it panics on the
    assertion of line 243 in the recursive call.  The round trip stops
    there: no later GetParameter sees the value 2. *)
Theorem C1_ReplaceParameter_nested_path_panics :
  GetParameter st_ab "a.b" (VMap 0%nat) = Ret (VInt 1, true)
  /\ ReplaceParameter st_ab "a.b" (VMapPtr 0%nat) (VInt 2)
     = Panic TypeAssertion
  /\ ReplaceParameter st_ab "a.b" (VMap 0%nat) (VInt 2)
     = Panic TypeAssertion.
Proof. repeat split; vm_compute; reflexivity. Qed.

(** C2. GetParameter is not total: on the one-element sequence [[x]] the
    index 2^63 parses, [int(index)] is negative, the bounds test of line
    273 passes and the indexing of line 277 panics; and on a scalar a
    last segment reaches the unguarded assertion of line 292, at the top
    and below a mapping alike. *)
Theorem C2_GetParameter_panics :
  GetParameter ∅ "9223372036854775808" (VSlice [VString "x"])
  = Panic IndexOutOfRange
  /\ GetParameter ∅ "9223372036854775808.k" (VSlice [VString "x"])
     = Panic IndexOutOfRange
  /\ GetParameter ∅ "a" (VString "x") = Panic TypeAssertion
  /\ GetParameter st_req "ref.b" (VMap 1%nat) = Panic TypeAssertion.
Proof. repeat split; vm_compute; reflexivity. Qed.

(** ** The signature verifier, the argument resolver and the rules *)

Section Rule_properties.
Variable Sprintf_v : store -> value -> string.
Variable json_Marshal : store -> option loc -> option string.
Variable regexp_MatchString : string -> string -> bool * option error.
Variable HMAC_SHA1 : list Byte.byte -> list Byte.byte -> list Byte.byte.

Local Abbreviation Get := (Argument_Get Sprintf_v json_Marshal).
Local Abbreviation Check := (CheckPayloadSignature HMAC_SHA1).
Local Abbreviation EvalMatch :=
  (MatchRule_Evaluate Sprintf_v json_Marshal regexp_MatchString HMAC_SHA1).
Local Abbreviation Eval :=
  (Rules_Evaluate Sprintf_v json_Marshal regexp_MatchString HMAC_SHA1).
Local Abbreviation EvalAnd :=
  (AndRule_Evaluate Sprintf_v json_Marshal regexp_MatchString HMAC_SHA1).
Local Abbreviation EvalOr :=
  (OrRule_Evaluate Sprintf_v json_Marshal regexp_MatchString HMAC_SHA1).
Local Abbreviation EvalNot :=
  (NotRule_Evaluate Sprintf_v json_Marshal regexp_MatchString HMAC_SHA1).

Lemma prefix_string_from (signature : string) :
  String.prefix "sha1=" signature = true ->
  signature = "sha1=" +:+ string_from 5 signature.
Proof.
  intros H.
  do 5 (destruct signature as [|? signature]; simpl in H; [discriminate|];
        match type of H with
        | (if ?d then _ else _) = true => destruct d; [subst|discriminate]
        end).
  reflexivity.
Qed.

Lemma strips_to_total (signature : string) :
  exists sig, strips_to signature sig.
Proof.
  destruct (String.prefix "sha1=" signature) eqn:E.
  - exists (string_from 5 signature). left. now apply prefix_string_from.
  - exists signature. now right.
Qed.

Lemma strips_to_code (signature sig : string) :
  strips_to signature sig ->
  (if String.prefix "sha1=" signature then string_from 5 signature
   else signature) = sig.
Proof.
  intros [-> | [H ->]].
  - assert (H : String.prefix "sha1=" ("sha1=" +:+ sig) = true)
      by (simpl; now destruct sig).
    now rewrite H.
  - now rewrite H.
Qed.

(** C4. CheckPayloadSignature strips the optional prefix "sha1=" from
    the signature, computes the lower-case hexadecimal HMAC-SHA1 of the
    payload under the secret, and returns it in both cases: with no
    error when the stripped signature equals it, with the
    SignatureError that carries it otherwise. *)
Theorem C4_CheckPayloadSignature (payload : list Byte.byte)
    (secret signature sig : string) :
  strips_to signature sig ->
  let computedHex :=
    hex_EncodeToString (HMAC_SHA1 (list_byte_of_string secret) payload) in
  (sig = computedHex ->
   Check payload secret signature = (computedHex, None))
  /\ (sig <> computedHex ->
      Check payload secret signature
      = (computedHex, Some (SignatureError computedHex))).
Proof using HMAC_SHA1.
  intros Hs computedHex. unfold CheckPayloadSignature.
  rewrite (strips_to_code _ _ Hs). fold computedHex.
  destruct (String.eqb_spec sig computedHex) as [E|E]; simpl;
    split; intros H; first [reflexivity | contradiction].
Qed.

Section One_request.
Variable st : store.
Variables headers query payload : option loc.

(** C3. A match rule of type payload-hash-sha1 whose argument
    resolves to [arg] returns, on a request with a body, the error
    of CheckPayloadSignature on the body, the secret and [arg], and
    true exactly when that error is nil; the error, when there is
    one, is the SignatureError with the computed signature, next to
    false.  When the argument does not resolve the rule returns
    (false, nil). *)
Theorem C3_signature_rule (body : list Byte.byte) (r : MatchRule) :
  Type_ r = MatchHashSHA1 ->
  (forall arg,
      Get st (Parameter_ r) headers query payload = Ret (arg, true) ->
      let '(computedHex, err) := Check body (Secret r) arg in
      EvalMatch st headers query payload (Some body) r
      = Ret (error_is_nil err, err)
      /\ (error_is_nil err = true <-> err = None)
      /\ (err <> None ->
          err = Some (SignatureError computedHex)
          /\ EvalMatch st headers query payload (Some body) r
             = Ret (false, Some (SignatureError computedHex))))
  /\ (forall s body',
         Get st (Parameter_ r) headers query payload = Ret (s, false) ->
         EvalMatch st headers query payload body' r = Ret (false, None)).
Proof.
  intros HT. split.
  - intros arg Hget.
    destruct (Check body (Secret r) arg) as [computedHex err] eqn:HC.
    assert (HE : EvalMatch st headers query payload (Some body) r
                 = Ret (error_is_nil err, err)).
    { unfold MatchRule_Evaluate. rewrite Hget. simpl. rewrite HT. simpl.
      now rewrite HC. }
    split; [exact HE|]. split.
    + destruct err; simpl; split; congruence.
    + intros Hne. unfold CheckPayloadSignature in HC.
      destruct (negb _) in HC; injection HC as <- <-; [|congruence].
      split; [reflexivity|]. now rewrite HE.
  - intros s body' Hget. unfold MatchRule_Evaluate. now rewrite Hget.
Qed.

(** Where the resolution of the argument returns, found or not, a match
    rule whose type is none of the three constants returns
    (false, nil); and an argument whose source is none of the seven
    constants resolves to the empty string, not found. *)
Lemma unknown_enumerations_when_resolved :
  (forall (body : option (list Byte.byte)) (r : MatchRule) arg ok,
      Type_ r <> MatchValue -> Type_ r <> MatchRegex ->
      Type_ r <> MatchHashSHA1 ->
      Get st (Parameter_ r) headers query payload = Ret (arg, ok) ->
      EvalMatch st headers query payload body r = Ret (false, None))
  /\ (forall ha : Argument,
         Source ha <> SourceHeader -> Source ha <> SourceQuery ->
         Source ha <> SourcePayload -> Source ha <> SourceString ->
         Source ha <> SourceEntirePayload ->
         Source ha <> SourceEntireHeaders ->
         Source ha <> SourceEntireQuery ->
         Get st ha headers query payload = Ret (EmptyString, false)).
Proof.
  split.
  - intros body r arg ok H1 H2 H3 Hget. unfold MatchRule_Evaluate.
    rewrite Hget. simpl.
    apply String.eqb_neq in H1, H2, H3. rewrite H1, H2, H3.
    now destruct ok.
  - intros ha H1 H2 H3 H4 H5 H6 H7. unfold Argument_Get.
    apply String.eqb_neq in H1, H2, H3, H4, H5, H6, H7.
    now rewrite H1, H2, H3, H4, H5, H6, H7.
Qed.

(** Resolution comes first: a panic of Argument.Get is the outcome of
    the match rule, whatever its type. *)
Lemma MatchRule_Evaluate_panics (body : option (list Byte.byte))
    (r : MatchRule) (x : panic) :
  Get st (Parameter_ r) headers query payload = Panic x ->
  EvalMatch st headers query payload body r = Panic x.
Proof.
  intros Hget. unfold MatchRule_Evaluate. now rewrite Hget.
Qed.

(** C5. A Not node returns the negation of the boolean of its child
    and the error of its child as it is: (b, nil) becomes
    (not b, nil), and an error [e] of the child is the error of the
    node. *)
Theorem C5_NotRule (body : option (list Byte.byte)) (child : Rules)
    (b : bool) (e : option error) (m : option MatchRule) :
  Eval st headers query payload body child = Ret (b, e) ->
  EvalNot st headers query payload body child = Ret (negb b, e)
  /\ Eval st headers query payload body (mkRules None None (Some child) m)
     = Ret (negb b, e).
Proof.
  intros H. unfold NotRule_Evaluate. simpl. now rewrite H.
Qed.

(** The children that do not decide an And are passed over, in
    order; the same for an Or. *)
Lemma AndRule_loop_passes (eval : Rules -> result (bool * option error))
    (pre rest : list Rules) :
  Forall (fun v => eval v = Ret (true, None)) pre ->
  AndRule_loop eval true (pre ++ rest)%list = AndRule_loop eval true rest.
Proof.
  induction 1 as [|v pre Hv _ IH]; simpl; [reflexivity|].
  now rewrite Hv.
Qed.

Lemma OrRule_loop_passes (eval : Rules -> result (bool * option error))
    (pre rest : list Rules) :
  Forall (fun v => eval v = Ret (false, None)) pre ->
  OrRule_loop eval false (pre ++ rest)%list = OrRule_loop eval false rest.
Proof.
  induction 1 as [|v pre Hv _ IH]; simpl; [reflexivity|].
  now rewrite Hv.
Qed.

(** C6. And and Or go through their children from the left and stop
    at the first one that decides.  And is (true, nil) on the empty
    list; after children that are (true, nil), a child with an error
    makes it (false, err) and a child that is (false, nil) makes it
    (false, nil), whatever children follow: these are not evaluated,
    so that not even one that panics shows.  Or is the dual, from
    false and stopping at (true, nil). *)
Theorem C6_short_circuit (body : option (list Byte.byte)) :
  let eval := Eval st headers query payload body in
  let all_are (x : bool) (pre : list Rules) :=
    Forall (fun v => eval v = Ret (x, None)) pre in
  EvalAnd st headers query payload body [] = Ret (true, None)
  /\ (forall pre c rest b err,
         all_are true pre -> eval c = Ret (b, Some err) ->
         EvalAnd st headers query payload body (pre ++ c :: rest)%list
         = Ret (false, Some err))
  /\ (forall pre c rest,
         all_are true pre -> eval c = Ret (false, None) ->
         EvalAnd st headers query payload body (pre ++ c :: rest)%list
         = Ret (false, None))
  /\ EvalOr st headers query payload body [] = Ret (false, None)
  /\ (forall pre c rest b err,
         all_are false pre -> eval c = Ret (b, Some err) ->
         EvalOr st headers query payload body (pre ++ c :: rest)%list
         = Ret (false, Some err))
  /\ (forall pre c rest,
         all_are false pre -> eval c = Ret (true, None) ->
         EvalOr st headers query payload body (pre ++ c :: rest)%list
         = Ret (true, None)).
Proof.
  intros eval all_are. unfold AndRule_Evaluate, OrRule_Evaluate.
  fold eval. subst all_are. simpl.
  repeat split.
  - intros pre c rest b err Hpre Hc.
    rewrite (AndRule_loop_passes _ _ _ Hpre). simpl. now rewrite Hc.
  - intros pre c rest Hpre Hc.
    rewrite (AndRule_loop_passes _ _ _ Hpre). simpl. now rewrite Hc.
  - intros pre c rest b err Hpre Hc.
    rewrite (OrRule_loop_passes _ _ _ Hpre). simpl. now rewrite Hc.
  - intros pre c rest Hpre Hc.
    rewrite (OrRule_loop_passes _ _ _ Hpre). simpl. now rewrite Hc.
Qed.

(** When no child decides, And is true and Or is false. *)
Lemma AndRule_all_true (body : option (list Byte.byte)) (r : list Rules) :
  Forall (fun v => Eval st headers query payload body v = Ret (true, None)) r ->
  EvalAnd st headers query payload body r = Ret (true, None).
Proof.
  intros H. unfold AndRule_Evaluate.
  rewrite <- (app_nil_r r). now rewrite (AndRule_loop_passes _ _ _ H).
Qed.

Lemma OrRule_all_false (body : option (list Byte.byte)) (r : list Rules) :
  Forall (fun v => Eval st headers query payload body v = Ret (false, None)) r ->
  EvalOr st headers query payload body r = Ret (false, None).
Proof.
  intros H. unfold OrRule_Evaluate.
  rewrite <- (app_nil_r r). now rewrite (OrRule_loop_passes _ _ _ H).
Qed.

(** C7. Rules.Evaluate evaluates the first populated field in the
    order And, Or, Not, Match, whatever the later fields hold, and
    is (false, nil) when none is populated. *)
Theorem C7_variant_priority (body : option (list Byte.byte)) (r : Rules) :
  (forall and_, Rules_And r = Some and_ ->
      Eval st headers query payload body r
      = EvalAnd st headers query payload body and_)
  /\ (forall or_, Rules_And r = None -> Rules_Or r = Some or_ ->
      Eval st headers query payload body r
      = EvalOr st headers query payload body or_)
  /\ (forall not_, Rules_And r = None -> Rules_Or r = None ->
      Rules_Not r = Some not_ ->
      Eval st headers query payload body r
      = EvalNot st headers query payload body not_)
  /\ (forall match_, Rules_And r = None -> Rules_Or r = None ->
      Rules_Not r = None -> Rules_Match r = Some match_ ->
      Eval st headers query payload body r
      = EvalMatch st headers query payload body match_)
  /\ (Rules_And r = None -> Rules_Or r = None ->
      Rules_Not r = None -> Rules_Match r = None ->
      Eval st headers query payload body r = Ret (false, None)).
Proof.
  destruct r as [a o n m]. simpl.
  repeat split; intros; subst; reflexivity.
Qed.
End One_request.
End Rule_properties.

(** C8. A match rule of an unknown type does not always fall through to
    (false, nil): on the payload [{"ref": "main", "n": "x"}] the rule of
    type "contains" on the path "ref.b" panics, for GetParameter reaches
    the unguarded assertion of line 292 on the string at [ref] before
    the switch on the type is entered.  With every library function and
    every body the outcome is the panic, not a result. *)
Theorem C8_unknown_type_panics
    (Sprintf_v : store -> value -> string)
    (json_Marshal : store -> option loc -> option string)
    (regexp_MatchString : string -> string -> bool * option error)
    (HMAC_SHA1 : list Byte.byte -> list Byte.byte -> list Byte.byte)
    (body : option (list Byte.byte)) :
  Type_ match_unknown_below_string <> MatchValue
  /\ Type_ match_unknown_below_string <> MatchRegex
  /\ Type_ match_unknown_below_string <> MatchHashSHA1
  /\ MatchRule_Evaluate Sprintf_v json_Marshal regexp_MatchString HMAC_SHA1
       st_req (Some 0%nat) None (Some 1%nat) body match_unknown_below_string
     = Panic TypeAssertion.
Proof.
  split; [discriminate|]. split; [discriminate|]. split; [discriminate|].
  apply MatchRule_Evaluate_panics.
  vm_compute. reflexivity.
Qed.

(** ** Hook extraction *)

Section Hook_properties.
Variable Sprintf_v : store -> value -> string.
Variable json_Marshal : store -> option loc -> option string.
Variable json_Decode : store -> string -> string + value * store.

Local Abbreviation Get := (Argument_Get Sprintf_v json_Marshal).

Section One_request.
Variable st : store.
Variables headers query payload : option loc.

Local Abbreviation resolves :=
  (Forall2 (fun a v => Get st a headers query payload = Ret (v, true))).

Lemma ExtractCommandArguments_loop_resolved (args : list string)
    (pre rest : list Argument) (vals : list string) :
  resolves pre vals ->
  ExtractCommandArguments_loop Sprintf_v json_Marshal st headers query
    payload args (pre ++ rest)%list
  = ExtractCommandArguments_loop Sprintf_v json_Marshal st headers query
      payload (args ++ vals)%list rest.
Proof.
  intros H. revert args.
  induction H as [|a v pre vals Ha _ IH]; intros args; simpl.
  - now rewrite app_nil_r.
  - rewrite Ha. simpl. rewrite IH. now rewrite <- app_assoc.
Qed.

Lemma ExtractCommandArgumentsForEnv_loop_resolved (args : list string)
    (pre rest : list Argument) (vals : list string) :
  resolves pre vals ->
  ExtractCommandArgumentsForEnv_loop Sprintf_v json_Marshal st headers
    query payload args (pre ++ rest)%list
  = ExtractCommandArgumentsForEnv_loop Sprintf_v json_Marshal st headers
      query payload
      (args ++ zip_with (fun a v => "HOOK_" +:+ Name a +:+ "=" +:+ v)
                 pre vals)%list rest.
Proof.
  intros H. revert args.
  induction H as [|a v pre vals Ha _ IH]; intros args; simpl.
  - now rewrite app_nil_r.
  - rewrite Ha. simpl. rewrite IH. now rewrite <- app_assoc.
Qed.

(** C9. ExtractCommandArguments returns the command followed by the
    values of the arguments in declared order, with a nil error when
    all resolve; at the first argument that does not resolve it
    appends the empty string, stops and returns the ArgumentError of
    that argument.  ExtractCommandArgumentsForEnv returns the entries
    "HOOK_" + name + "=" + value in declared order and stops at the
    first argument that does not resolve, with its ArgumentError and
    no entry for it. *)
Theorem C9_extraction (h : Hook) :
  let entries :=
    zip_with (fun a v => "HOOK_" +:+ Name a +:+ "=" +:+ v) in
  (forall vals,
      resolves (PassArgumentsToCommand h) vals ->
      ExtractCommandArguments Sprintf_v json_Marshal h st headers query
        payload
      = Ret (ExecuteCommand h :: vals, None))
  /\ (forall pre a rest vals s,
         PassArgumentsToCommand h = (pre ++ a :: rest)%list ->
         resolves pre vals ->
         Get st a headers query payload = Ret (s, false) ->
         ExtractCommandArguments Sprintf_v json_Marshal h st headers
           query payload
         = Ret ((ExecuteCommand h :: vals ++ [EmptyString])%list,
                Some (ArgumentError a)))
  /\ (forall vals,
         resolves (PassEnvironmentToCommand h) vals ->
         ExtractCommandArgumentsForEnv Sprintf_v json_Marshal h st
           headers query payload
         = Ret (entries (PassEnvironmentToCommand h) vals, None))
  /\ (forall pre a rest vals s,
         PassEnvironmentToCommand h = (pre ++ a :: rest)%list ->
         resolves pre vals ->
         Get st a headers query payload = Ret (s, false) ->
         ExtractCommandArgumentsForEnv Sprintf_v json_Marshal h st
           headers query payload
         = Ret (entries pre vals, Some (ArgumentError a))).
Proof.
  intros entries. subst entries.
  unfold ExtractCommandArguments, ExtractCommandArgumentsForEnv.
  repeat split.
  - intros vals H. rewrite <- (app_nil_r (PassArgumentsToCommand h)).
    now rewrite (ExtractCommandArguments_loop_resolved _ _ _ _ H).
  - intros pre a rest vals s -> H Ha.
    rewrite (ExtractCommandArguments_loop_resolved _ _ _ _ H). simpl.
    now rewrite Ha.
  - intros vals H. rewrite <- (app_nil_r (PassEnvironmentToCommand h)).
    rewrite (ExtractCommandArgumentsForEnv_loop_resolved _ _ _ _ H).
    simpl. now rewrite app_nil_r.
  - intros pre a rest vals s -> H Ha.
    rewrite (ExtractCommandArgumentsForEnv_loop_resolved _ _ _ _ H). simpl.
    now rewrite Ha.
Qed.

Lemma Get_splice_target (p : Argument) (l : loc) :
  splice_target p headers query payload l ->
  Get st p headers query payload
  = ExtractParameterAsString Sprintf_v st (Name p) (VMap l).
Proof.
  unfold Argument_Get.
  intros [[-> ->] | [[-> ->] | [-> ->]]]; reflexivity.
Qed.

Lemma ParseJSONParameters_loop_splice (p : Argument)
    (params' : list Argument) (l : loc) (arg : string) (newArg : value)
    (st1 : store) :
  splice_target p headers query payload l ->
  Get st p headers query payload = Ret (arg, true) ->
  json_Decode st arg = inr (newArg, st1) ->
  ParseJSONParameters_loop Sprintf_v json_Marshal json_Decode st
    (p :: params') headers query payload
  = (r_ <~ ReplaceParameter st1 (Name p) (VMapPtr l) newArg ;;
     ParseJSONParameters_loop Sprintf_v json_Marshal json_Decode (snd r_)
       params' headers query payload).
Proof.
  intros Ht Hget Hdec. simpl. rewrite Hget. simpl. rewrite Hdec.
  assert (Hsrc : (if String.eqb (Source p) SourceHeader then headers
                  else if String.eqb (Source p) SourcePayload then payload
                  else if String.eqb (Source p) SourceQuery then query
                  else None) = Some l).
  { destruct Ht as [[-> ->] | [[-> ->] | [-> ->]]]; reflexivity. }
  rewrite Hsrc.
  destruct (ReplaceParameter st1 (Name p) (VMapPtr l) newArg) as [[b st2]|];
    reflexivity.
Qed.

(** After the argument resolved, the splice never returns false: a
    name without a dot names a key that the map has, which is
    assigned (as long as the decoder left the map as it was), and a
    name with a dot panics. *)
Lemma splice_never_returns_false (p : Argument) (l : loc) (arg : string)
    (newArg : value) (st1 st2 : store) :
  splice_target p headers query payload l ->
  Get st p headers query payload = Ret (arg, true) ->
  deref st1 l = deref st l ->
  ReplaceParameter st1 (Name p) (VMapPtr l) newArg <> Ret (false, st2).
Proof.
  intros Ht Hget Hsame.
  rewrite (Get_splice_target _ _ Ht) in Hget.
  unfold ExtractParameterAsString in Hget.
  destruct (SplitN (Name p)) as [p0 [p1|]] eqn:Hs.
  - now rewrite (ReplaceParameter_pointer_dotted _ _ _ _ _ _ Hs).
  - pose proof (SplitN_no_dot _ _ Hs) as ->.
    rewrite (ReplaceParameter_pointer_last _ _ _ _ Hs), Hsame.
    rewrite (GetParameter_map_last _ _ _ Hs) in Hget.
    destruct (deref st l !! Name p); [discriminate|].
    simpl in Hget. discriminate.
Qed.

(** C10. ParseJSONParameters does not return when the name of a
    JSON-decode argument has a dot: once the argument resolved and
    decoded and its source is a recognized domain, the call of
    ReplaceParameter with the pointer to that domain panics on the
    assertion of line 239.  A resolved argument whose splice returns
    false and is passed over in silence does not arise. *)
Theorem C10_ParseJSONParameters_dotted_name_panics (h : Hook)
    (p : Argument) (params' : list Argument) (l : loc) (p0 p1 arg : string)
    (newArg : value) (st1 : store) :
  JSONStringParameters h = p :: params' ->
  splice_target p headers query payload l ->
  SplitN (Name p) = (p0, Some p1) ->
  Get st p headers query payload = Ret (arg, true) ->
  json_Decode st arg = inr (newArg, st1) ->
  ParseJSONParameters Sprintf_v json_Marshal json_Decode h st headers
    query payload
  = Panic TypeAssertion.
Proof.
  intros Hh Ht Hs Hget Hdec. unfold ParseJSONParameters. rewrite Hh.
  rewrite (ParseJSONParameters_loop_splice _ _ _ _ _ _ Ht Hget Hdec).
  now rewrite (ReplaceParameter_pointer_dotted _ _ _ _ _ _ Hs).
Qed.
End One_request.
End Hook_properties.

(** ** The theorems at the sample requests *)

Lemma C4_CheckPayloadSignature_witness :
  strips_to "sha1=7305" "7305"
  /\ CheckPayloadSignature HMAC_SHA1_toy body_hello "s" "sha1=7305"
     = ("7305", None).
Proof.
  assert (Hs : strips_to "sha1=7305" "7305") by (left; reflexivity).
  split; [exact Hs|].
  pose proof (C4_CheckPayloadSignature HMAC_SHA1_toy body_hello "s"
                "sha1=7305" "7305" Hs) as H.
  cbv zeta in H. destruct H as [H _]. apply H. vm_compute. reflexivity.
Defined.

Lemma C3_signature_rule_witness :
  Type_ match_signature = MatchHashSHA1
  /\ Get_sample (Parameter_ match_signature) = Ret ("sha1=00", true)
  /\ MatchRule_Evaluate Sprintf_v_scalar json_Marshal_nil
       regexp_MatchString_prefix HMAC_SHA1_toy st_req (Some 0%nat) None
       (Some 1%nat) (Some body_hello) match_signature
     = Ret (false, Some (SignatureError "7305")).
Proof.
  assert (Hg : Get_sample (Parameter_ match_signature) = Ret ("sha1=00", true))
    by (vm_compute; reflexivity).
  split; [reflexivity|]. split; [exact Hg|].
  destruct (C3_signature_rule Sprintf_v_scalar json_Marshal_nil
              regexp_MatchString_prefix HMAC_SHA1_toy st_req (Some 0%nat) None
              (Some 1%nat) body_hello match_signature eq_refl) as [H _].
  specialize (H "sha1=00" Hg).
  change (CheckPayloadSignature HMAC_SHA1_toy body_hello
            (Secret match_signature) "sha1=00")
    with ("7305", Some (SignatureError "7305")) in H.
  cbv beta iota in H. destruct H as (_ & _ & H).
  apply H. discriminate.
Defined.

Lemma C5_NotRule_witness :
  Eval_sample (rule_of match_signature)
  = Ret (false, Some (SignatureError "7305"))
  /\ NotRule_Evaluate Sprintf_v_scalar json_Marshal_nil
       regexp_MatchString_prefix HMAC_SHA1_toy st_req (Some 0%nat) None
       (Some 1%nat) (Some body_hello) (rule_of match_signature)
     = Ret (true, Some (SignatureError "7305")).
Proof.
  assert (Hc : Eval_sample (rule_of match_signature)
               = Ret (false, Some (SignatureError "7305")))
    by (vm_compute; reflexivity).
  split; [exact Hc|].
  exact (proj1 (C5_NotRule Sprintf_v_scalar json_Marshal_nil
                  regexp_MatchString_prefix HMAC_SHA1_toy st_req (Some 0%nat)
                  None (Some 1%nat) (Some body_hello) _ _ _ None Hc)).
Defined.

Lemma C6_short_circuit_witness :
  Eval_sample (rule_of match_below_string) = Panic TypeAssertion
  /\ AndRule_Evaluate Sprintf_v_scalar json_Marshal_nil
       regexp_MatchString_prefix HMAC_SHA1_toy st_req (Some 0%nat) None
       (Some 1%nat) (Some body_hello)
       [rule_of match_ref_main; rule_of match_ref_other;
        rule_of match_below_string]
     = Ret (false, None)
  /\ OrRule_Evaluate Sprintf_v_scalar json_Marshal_nil
       regexp_MatchString_prefix HMAC_SHA1_toy st_req (Some 0%nat) None
       (Some 1%nat) (Some body_hello)
       [rule_of match_ref_other; rule_of match_signature;
        rule_of match_below_string]
     = Ret (false, Some (SignatureError "7305")).
Proof.
  pose proof (C6_short_circuit Sprintf_v_scalar json_Marshal_nil
                regexp_MatchString_prefix HMAC_SHA1_toy st_req (Some 0%nat)
                None (Some 1%nat) (Some body_hello)) as H.
  cbv zeta in H. destruct H as (_ & _ & Hand & _ & Hor & _).
  split; [vm_compute; reflexivity|]. split.
  - apply (Hand [rule_of match_ref_main] (rule_of match_ref_other)
             [rule_of match_below_string]).
    + constructor; [vm_compute; reflexivity | constructor].
    + vm_compute. reflexivity.
  - apply (Hor [rule_of match_ref_other] (rule_of match_signature)
             [rule_of match_below_string] false).
    + constructor; [vm_compute; reflexivity | constructor].
    + vm_compute. reflexivity.
Defined.

Lemma C7_variant_priority_witness :
  Rules_And rule_all_fields = Some [rule_of match_ref_main]
  /\ Eval_sample rule_all_fields
     = AndRule_Evaluate Sprintf_v_scalar json_Marshal_nil
         regexp_MatchString_prefix HMAC_SHA1_toy st_req (Some 0%nat) None
         (Some 1%nat) (Some body_hello) [rule_of match_ref_main].
Proof.
  split; [reflexivity|].
  apply (proj1 (C7_variant_priority Sprintf_v_scalar json_Marshal_nil
                  regexp_MatchString_prefix HMAC_SHA1_toy st_req (Some 0%nat)
                  None (Some 1%nat) (Some body_hello) rule_all_fields)).
  reflexivity.
Defined.

Lemma unknown_enumerations_when_resolved_witness :
  Get_sample (Parameter_ match_unknown) = Ret ("main", true)
  /\ MatchRule_Evaluate Sprintf_v_scalar json_Marshal_nil
       regexp_MatchString_prefix HMAC_SHA1_toy st_req (Some 0%nat) None
       (Some 1%nat) (Some body_hello) match_unknown
     = Ret (false, None)
  /\ Get_sample (mkArgument "cookie" "ref") = Ret (EmptyString, false).
Proof.
  assert (Hg : Get_sample (Parameter_ match_unknown) = Ret ("main", true))
    by (vm_compute; reflexivity).
  destruct (unknown_enumerations_when_resolved Sprintf_v_scalar json_Marshal_nil
              regexp_MatchString_prefix HMAC_SHA1_toy st_req (Some 0%nat) None
              (Some 1%nat)) as [Hm Ha].
  split; [exact Hg|]. split.
  - apply (Hm (Some body_hello) match_unknown "main" true);
      [discriminate | discriminate | discriminate | exact Hg].
  - apply Ha; discriminate.
Defined.

Lemma C9_extraction_witness :
  ExtractCommandArguments Sprintf_v_scalar json_Marshal_nil hook_args st_req
    (Some 0%nat) None (Some 1%nat)
  = Ret (["/bin/run"; "main"; ""],
         Some (ArgumentError (mkArgument "payload" "missing")))
  /\ ExtractCommandArgumentsForEnv Sprintf_v_scalar json_Marshal_nil hook_args
       st_req (Some 0%nat) None (Some 1%nat)
     = Ret (["HOOK_n=x"],
            Some (ArgumentError (mkArgument "payload" "missing"))).
Proof.
  pose proof (C9_extraction Sprintf_v_scalar json_Marshal_nil st_req
                (Some 0%nat) None (Some 1%nat) hook_args) as H.
  cbv zeta in H. destruct H as (_ & Hargs & _ & Henv).
  split.
  - apply (Hargs [mkArgument "payload" "ref"] (mkArgument "payload" "missing")
             [mkArgument "payload" "n"] ["main"] EmptyString).
    + reflexivity.
    + constructor; [vm_compute; reflexivity | constructor].
    + vm_compute. reflexivity.
  - apply (Henv [mkArgument "payload" "n"] (mkArgument "payload" "missing")
             [mkArgument "payload" "ref"] ["x"] EmptyString).
    + reflexivity.
    + constructor; [vm_compute; reflexivity | constructor].
    + vm_compute. reflexivity.
Defined.

Lemma C10_ParseJSONParameters_witness :
  Argument_Get Sprintf_v_scalar json_Marshal_nil st_seq
    (mkArgument "payload" "a.0") None None (Some 0%nat)
  = Ret ("{}", true)
  /\ ParseJSONParameters Sprintf_v_scalar json_Marshal_nil json_Decode_empty
       hook_json st_seq None None (Some 0%nat)
     = Panic TypeAssertion.
Proof.
  assert (Hg : Argument_Get Sprintf_v_scalar json_Marshal_nil st_seq
                 (mkArgument "payload" "a.0") None None (Some 0%nat)
               = Ret ("{}", true))
    by (vm_compute; reflexivity).
  split; [exact Hg|].
  eapply (C10_ParseJSONParameters_dotted_name_panics Sprintf_v_scalar
            json_Marshal_nil json_Decode_empty st_seq None None (Some 0%nat)
            hook_json (mkArgument "payload" "a.0") [] 0%nat "a" "0" "{}").
  - reflexivity.
  - right. left. split; reflexivity.
  - reflexivity.
  - exact Hg.
  - unfold json_Decode_empty. simpl. reflexivity.
Defined.

(** * Further properties of the package *)

(** ** Paths *)

Lemma SplitN_append_last (p0 p1 : string) :
  SplitN p0 = (p0, None) -> SplitN (p0 +:+ "." +:+ p1) = (p0, Some p1).
Proof.
  induction p0 as [|c p0 IH]; simpl; [reflexivity|].
  destruct (Ascii.eqb c "."%char); [discriminate|].
  destruct (SplitN p0) as [q0 q1] eqn:E. intros [= -> ->].
  now rewrite (IH eq_refl).
Qed.

Lemma SplitN_append_dotted (p0 p1 q0 q1 : string) :
  SplitN p0 = (q0, Some q1) ->
  SplitN (p0 +:+ "." +:+ p1) = (q0, Some (q1 +:+ "." +:+ p1)).
Proof.
  revert q0. induction p0 as [|c p0 IH]; intros q0; simpl; [discriminate|].
  destruct (Ascii.eqb c "."%char).
  - now intros [= <- <-].
  - destruct (SplitN p0) as [r0 r1] eqn:E. intros [= <- ->].
    now rewrite (IH r0 eq_refl).
Qed.

Lemma SplitN_cases (s : string) :
  SplitN s = (s, None) \/ exists p0 p1, SplitN s = (p0, Some p1).
Proof.
  destruct (SplitN s) as [p0 [p1|]] eqn:E; [right; eauto|left].
  now rewrite (SplitN_no_dot _ _ E).
Qed.

(** One step of GetParameter on a path with a dot, below a map and below
    a slice. *)
Lemma GetParameter_map_step (st : store) (s p0 p1 : string) (l : loc) :
  SplitN s = (p0, Some p1) ->
  GetParameter st s (VMap l)
  = match deref st l !! p0 with
    | Some pValue => GetParameter st p1 pValue
    | None => Ret (VNil, false)
    end.
Proof.
  intros Hs. rewrite GetParameter_eq. unfold GetParameter_body. simpl.
  now rewrite Hs.
Qed.

Lemma GetParameter_slice_step (st : store) (s p0 p1 : string)
    (xs : list value) :
  SplitN s = (p0, Some p1) ->
  GetParameter st s (VSlice xs)
  = if 0 <? Z.of_nat (length xs) then
      match ParseUint p0 with
      | Some index =>
          if Z.of_nat (length xs) <=? int_of_uint64 index
          then Ret (VNil, false)
          else x <~ index_slice xs index ;; GetParameter st p1 x
      | None => Ret (VNil, false)
      end
    else Ret (VNil, false).
Proof.
  intros Hs. rewrite GetParameter_eq. unfold GetParameter_body. simpl.
  now rewrite Hs.
Qed.

Lemma GetParameter_slice_end (st : store) (s : string) (xs : list value) :
  SplitN s = (s, None) ->
  GetParameter st s (VSlice xs)
  = if 0 <? Z.of_nat (length xs) then
      match ParseUint s with
      | Some index =>
          if Z.of_nat (length xs) <=? int_of_uint64 index
          then Ret (VNil, false)
          else x <~ index_slice xs index ;; Ret (x, true)
      | None => Ret (VNil, false)
      end
    else Ret (VNil, false).
Proof.
  intros Hs. rewrite GetParameter_eq. unfold GetParameter_body. simpl.
  now rewrite Hs.
Qed.

(** Below a value that is no map and no slice, GetParameter finds
    nothing on a path with a dot and panics on a last segment; nil finds
    nothing at all. *)
Lemma GetParameter_nil (st : store) (s : string) :
  GetParameter st s VNil = Ret (VNil, false).
Proof. rewrite GetParameter_eq. reflexivity. Qed.

Lemma GetParameter_other (st : store) (s : string) (params : value) :
  is_nil params = false -> Kind_of params <> Slice -> Kind_of params <> Map ->
  GetParameter st s params
  = match SplitN s with
    | (_, Some _) => Ret (VNil, false)
    | (_, None) => Panic TypeAssertion
    end.
Proof.
  intros Hn Hs Hm. rewrite GetParameter_eq. unfold GetParameter_body.
  rewrite Hn. destruct params; simpl in *; try congruence;
    destruct (SplitN s) as [p0 [p1|]]; reflexivity.
Qed.

Lemma value_shape (params : value) :
  params = VNil \/ (exists l, params = VMap l) \/ (exists xs, params = VSlice xs)
  \/ (is_nil params = false /\ Kind_of params <> Slice /\ Kind_of params <> Map).
Proof.
  destruct params; simpl; eauto 6;
    right; right; right; repeat split; discriminate.
Qed.

(** ** GetParameter composes along the path *)

Lemma GetParameter_compose_bounded (st : store) (n : nat) :
  forall (p0 p1 : string) (root v : value),
    (String.length p0 < n)%nat ->
    GetParameter st p0 root = Ret (v, true) ->
    GetParameter st (p0 +:+ "." +:+ p1) root = GetParameter st p1 v.
Proof.
  induction n as [|n IH]; intros p0 p1 root v Hn Hget; [lia|].
  destruct (SplitN_cases p0) as [Hs | (q0 & q1 & Hs)].
  - pose proof (SplitN_append_last p0 p1 Hs) as Hs'.
    destruct (value_shape root) as [-> | [[l ->] | [[xs ->] | (H1 & H2 & H3)]]].
    + rewrite GetParameter_nil in Hget. discriminate.
    + rewrite (GetParameter_map_last _ _ _ Hs) in Hget.
      rewrite (GetParameter_map_step _ _ _ _ _ Hs').
      destruct (deref st l !! p0); [|discriminate]. now injection Hget as ->.
    + rewrite (GetParameter_slice_end _ _ _ Hs) in Hget.
      rewrite (GetParameter_slice_step _ _ _ _ _ Hs').
      destruct (0 <? Z.of_nat (length xs)); [|discriminate].
      destruct (ParseUint p0) as [index|]; [|discriminate].
      destruct (Z.of_nat (length xs) <=? int_of_uint64 index); [discriminate|].
      destruct (index_slice xs index); simpl in *; [|discriminate].
      now injection Hget as ->.
    + rewrite (GetParameter_other _ _ _ H1 H2 H3), Hs in Hget. discriminate.
  - pose proof (SplitN_append_dotted p0 p1 _ _ Hs) as Hs'.
    pose proof (SplitN_shorter _ _ _ Hs) as Hlt.
    destruct (value_shape root) as [-> | [[l ->] | [[xs ->] | (H1 & H2 & H3)]]].
    + rewrite GetParameter_nil in Hget. discriminate.
    + rewrite (GetParameter_map_step _ _ _ _ _ Hs) in Hget.
      rewrite (GetParameter_map_step _ _ _ _ _ Hs').
      destruct (deref st l !! q0); [|discriminate].
      apply IH; [lia|exact Hget].
    + rewrite (GetParameter_slice_step _ _ _ _ _ Hs) in Hget.
      rewrite (GetParameter_slice_step _ _ _ _ _ Hs').
      destruct (0 <? Z.of_nat (length xs)); [|discriminate].
      destruct (ParseUint q0) as [index|]; [|discriminate].
      destruct (Z.of_nat (length xs) <=? int_of_uint64 index); [discriminate|].
      destruct (index_slice xs index); simpl in *; [|discriminate].
      apply IH; [lia|exact Hget].
    + rewrite (GetParameter_other _ _ _ H1 H2 H3), Hs in Hget. discriminate.
Qed.

(** X1. A path is resolved segment by segment: when [p0] finds the
    value [v] below [root], the path [p0.p1] below [root] gives what
    [p1] gives below [v] (a value, nothing, or a panic). *)
Theorem GetParameter_compose (st : store) (p0 p1 : string) (root v : value) :
  GetParameter st p0 root = Ret (v, true) ->
  GetParameter st (p0 +:+ "." +:+ p1) root = GetParameter st p1 v.
Proof.
  apply (GetParameter_compose_bounded st (S (String.length p0))). lia.
Qed.

Lemma GetParameter_not_found_bounded (st : store) (n : nat) :
  forall (s : string) (root v : value),
    (String.length s < n)%nat ->
    GetParameter st s root = Ret (v, false) -> v = VNil.
Proof.
  induction n as [|n IH]; intros s root v Hn Hget; [lia|].
  destruct (value_shape root) as [-> | [[l ->] | [[xs ->] | (H1 & H2 & H3)]]].
  - rewrite GetParameter_nil in Hget. congruence.
  - destruct (SplitN_cases s) as [Hs | (q0 & q1 & Hs)].
    + rewrite (GetParameter_map_last _ _ _ Hs) in Hget.
      destruct (deref st l !! s); congruence.
    + rewrite (GetParameter_map_step _ _ _ _ _ Hs) in Hget.
      pose proof (SplitN_shorter _ _ _ Hs).
      destruct (deref st l !! q0); [|congruence].
      eapply IH; [|exact Hget]. lia.
  - destruct (SplitN_cases s) as [Hs | (q0 & q1 & Hs)].
    + rewrite (GetParameter_slice_end _ _ _ Hs) in Hget.
      destruct (0 <? Z.of_nat (length xs)); [|congruence].
      destruct (ParseUint s) as [index|]; [|congruence].
      destruct (Z.of_nat (length xs) <=? int_of_uint64 index); [congruence|].
      destruct (index_slice xs index); simpl in *; congruence.
    + rewrite (GetParameter_slice_step _ _ _ _ _ Hs) in Hget.
      pose proof (SplitN_shorter _ _ _ Hs).
      destruct (0 <? Z.of_nat (length xs)); [|congruence].
      destruct (ParseUint q0) as [index|]; [|congruence].
      destruct (Z.of_nat (length xs) <=? int_of_uint64 index); [congruence|].
      destruct (index_slice xs index); simpl in *; [|congruence].
      eapply IH; [|exact Hget]. lia.
  - rewrite (GetParameter_other _ _ _ H1 H2 H3) in Hget.
    destruct (SplitN s) as [p0 [p1|]]; congruence.
Qed.

(** X2. Whenever GetParameter reports that it found nothing, the value
    it returns is nil, on every path and below every value. *)
Theorem GetParameter_not_found_is_nil (st : store) (s : string)
    (root v : value) :
  GetParameter st s root = Ret (v, false) -> v = VNil.
Proof.
  apply (GetParameter_not_found_bounded st (S (String.length s))). lia.
Qed.

(** ** ReplaceParameter, step by step *)

Lemma ReplaceParameter_nil (st : store) (s : string) (v : value) :
  ReplaceParameter st s VNil v = Ret (false, st).
Proof. rewrite ReplaceParameter_eq. reflexivity. Qed.

Lemma ReplaceParameter_map_step (st : store) (s p0 p1 : string) (l : loc)
    (v : value) :
  SplitN s = (p0, Some p1) ->
  ReplaceParameter st s (VMap l) v
  = match deref st l !! p0 with
    | Some pValue => ReplaceParameter st p1 pValue v
    | None => Ret (false, st)
    end.
Proof.
  intros Hs. rewrite ReplaceParameter_eq. unfold ReplaceParameter_body.
  simpl. now rewrite Hs.
Qed.

Lemma ReplaceParameter_slice_step (st : store) (s p0 p1 : string)
    (xs : list value) (v : value) :
  SplitN s = (p0, Some p1) ->
  ReplaceParameter st s (VSlice xs) v
  = if 0 <? Z.of_nat (length xs) then
      match ParseUint p0 with
      | Some index =>
          if Z.of_nat (length xs) <=? int_of_uint64 index
          then Ret (false, st)
          else x <~ index_slice xs index ;; ReplaceParameter st p1 x v
      | None => Ret (false, st)
      end
    else Ret (false, st).
Proof.
  intros Hs. rewrite ReplaceParameter_eq. unfold ReplaceParameter_body.
  simpl. now rewrite Hs.
Qed.

Lemma ReplaceParameter_slice_end (st : store) (s : string) (xs : list value)
    (v : value) :
  SplitN s = (s, None) ->
  ReplaceParameter st s (VSlice xs) v = Ret (false, st).
Proof.
  intros Hs. rewrite ReplaceParameter_eq. unfold ReplaceParameter_body.
  simpl. rewrite Hs. now destruct (0 <? Z.of_nat (length xs)).
Qed.

(** Below a value that is neither nil, a slice nor a pointer to a map,
    the last segment panics; below one that is neither nil, a slice nor
    a map, a segment before the last panics. *)
Lemma ReplaceParameter_end_not_pointer (st : store) (s : string)
    (params v : value) :
  SplitN s = (s, None) -> is_nil params = false ->
  Kind_of params <> Slice -> Kind_of params <> Ptr ->
  ReplaceParameter st s params v = Panic TypeAssertion.
Proof.
  intros Hs Hn H1 H2. rewrite ReplaceParameter_eq.
  unfold ReplaceParameter_body. rewrite Hn, Hs.
  destruct params; simpl in *; congruence.
Qed.

Lemma ReplaceParameter_step_not_map (st : store) (s p0 p1 : string)
    (params v : value) :
  SplitN s = (p0, Some p1) -> is_nil params = false ->
  Kind_of params <> Slice -> Kind_of params <> Map ->
  ReplaceParameter st s params v = Panic TypeAssertion.
Proof.
  intros Hs Hn H1 H2. rewrite ReplaceParameter_eq.
  unfold ReplaceParameter_body. rewrite Hn, Hs.
  destruct params; simpl in *; congruence.
Qed.

Lemma GetParameter_replace_exclusive_bounded (st : store) (n : nat) :
  forall (s : string) (root x v : value) (st' : store),
    (String.length s < n)%nat ->
    GetParameter st s root = Ret (x, true) ->
    ReplaceParameter st s root v <> Ret (true, st').
Proof.
  induction n as [|n IH]; intros s root x v st' Hn Hget; [lia|].
  destruct (value_shape root) as [-> | [[l ->] | [[xs ->] | (H1 & H2 & H3)]]].
  - rewrite GetParameter_nil in Hget. discriminate.
  - destruct (SplitN_cases s) as [Hs | (q0 & q1 & Hs)].
    + rewrite (ReplaceParameter_end_not_pointer _ _ _ _ Hs); simpl;
        discriminate || reflexivity.
    + rewrite (GetParameter_map_step _ _ _ _ _ Hs) in Hget.
      rewrite (ReplaceParameter_map_step _ _ _ _ _ _ Hs).
      pose proof (SplitN_shorter _ _ _ Hs).
      destruct (deref st l !! q0); [|discriminate].
      eapply IH; [|exact Hget]. lia.
  - destruct (SplitN_cases s) as [Hs | (q0 & q1 & Hs)].
    + rewrite (ReplaceParameter_slice_end _ _ _ _ Hs). discriminate.
    + rewrite (GetParameter_slice_step _ _ _ _ _ Hs) in Hget.
      rewrite (ReplaceParameter_slice_step _ _ _ _ _ _ Hs).
      pose proof (SplitN_shorter _ _ _ Hs).
      destruct (0 <? Z.of_nat (length xs)); [|discriminate].
      destruct (ParseUint q0) as [index|]; [|discriminate].
      destruct (Z.of_nat (length xs) <=? int_of_uint64 index); [discriminate|].
      destruct (index_slice xs index); simpl in *; [|discriminate].
      eapply IH; [|exact Hget]. lia.
  - rewrite (GetParameter_other _ _ _ H1 H2 H3) in Hget.
    destruct (SplitN s) as [p0 [p1|]]; discriminate.
Qed.

(** X3. GetParameter and ReplaceParameter never both succeed on the same
    path below the same value: where the one finds a value, the other
    does not return true.  The last segment is read in a map or a slice
    and assigned through a pointer to a map only. *)
Theorem GetParameter_ReplaceParameter_exclusive (st st' : store) (s : string)
    (root x v : value) :
  GetParameter st s root = Ret (x, true) ->
  ReplaceParameter st s root v <> Ret (true, st').
Proof.
  apply (GetParameter_replace_exclusive_bounded st (S (String.length s))). lia.
Qed.

Lemma ReplaceParameter_effect_bounded (v : value) (n : nat) :
  forall (st st' : store) (s : string) (root : value) (b : bool),
    (String.length s < n)%nat ->
    ReplaceParameter st s root v = Ret (b, st') ->
    (b = false /\ st' = st)
    \/ (b = true /\ exists l k old,
           deref st l !! k = Some old
           /\ st' = <[l := <[k := v]> (deref st l)]> st).
Proof.
  induction n as [|n IH]; intros st st' s root b Hn Hrep; [lia|].
  destruct (SplitN_cases s) as [Hs | (q0 & q1 & Hs)].
  - destruct root;
      try (rewrite (ReplaceParameter_end_not_pointer _ _ _ _ Hs) in Hrep;
           simpl; discriminate || reflexivity).
    + rewrite ReplaceParameter_nil in Hrep. injection Hrep as <- <-. now left.
    + rewrite (ReplaceParameter_pointer_last _ _ _ _ Hs) in Hrep.
      destruct (deref st l !! s) as [old|] eqn:Hold; injection Hrep as <- <-.
      * right. split; [reflexivity|]. now exists l, s, old.
      * now left.
    + rewrite (ReplaceParameter_slice_end _ _ _ _ Hs) in Hrep.
      injection Hrep as <- <-. now left.
  - pose proof (SplitN_shorter _ _ _ Hs) as Hlt.
    destruct root;
      try (rewrite (ReplaceParameter_step_not_map _ _ _ _ _ _ Hs) in Hrep;
           simpl; discriminate || reflexivity).
    + rewrite ReplaceParameter_nil in Hrep. injection Hrep as <- <-. now left.
    + rewrite (ReplaceParameter_map_step _ _ _ _ _ _ Hs) in Hrep.
      destruct (deref st l !! q0).
      * eapply IH; [|exact Hrep]. lia.
      * injection Hrep as <- <-. now left.
    + rewrite (ReplaceParameter_slice_step _ _ _ _ _ _ Hs) in Hrep.
      destruct (0 <? Z.of_nat (length xs));
        [|injection Hrep as <- <-; now left].
      destruct (ParseUint q0) as [index|];
        [|injection Hrep as <- <-; now left].
      destruct (Z.of_nat (length xs) <=? int_of_uint64 index);
        [injection Hrep as <- <-; now left|].
      destruct (index_slice xs index); simpl in *; [|discriminate].
      eapply IH; [|exact Hrep]. lia.
Qed.

Lemma deref_insert (st : store) (l l' : loc) (m : gmap string value) :
  deref (<[l := m]> st) l' = if decide (l = l') then m else deref st l'.
Proof.
  unfold deref. destruct (decide (l = l')) as [->|Hne].
  - now rewrite lookup_insert_eq.
  - now rewrite lookup_insert_ne.
Qed.

(** X4. ReplaceParameter never inserts a key.  When it returns false the
    store is as it was; when it returns true exactly one key that one
    map already had holds the new value; so every map keeps its set of
    keys in every case. *)
Theorem ReplaceParameter_effect (st st' : store) (s : string)
    (root v : value) (b : bool) :
  ReplaceParameter st s root v = Ret (b, st') ->
  (b = false -> st' = st)
  /\ (b = true -> exists l k old,
         deref st l !! k = Some old
         /\ st' = <[l := <[k := v]> (deref st l)]> st)
  /\ (forall l, dom (deref st' l) = dom (deref st l)).
Proof.
  intros Hrep.
  destruct (ReplaceParameter_effect_bounded v (S (String.length s))
              st st' s root b (Nat.lt_succ_diag_r _) Hrep)
    as [[-> ->] | [-> (l & k & old & Hold & ->)]].
  - split; [reflexivity|]. split; [discriminate|]. reflexivity.
  - split; [discriminate|]. split; [intros _; now exists l, k, old|].
    intros l'. rewrite deref_insert. destruct (decide (l = l')) as [<-|]; [|done].
    rewrite dom_insert_L.
    assert (Hk : k ∈ dom (deref st l)) by (apply elem_of_dom; eauto).
    apply subseteq_union_1_L, singleton_subseteq_l, Hk.
Qed.

(** X5. At the top level of the map behind the pointer, an existing key
    is replaced and read back, the other keys of that map read as
    before, and the other maps are untouched. *)
Theorem ReplaceParameter_top_level (st : store) (s : string) (l : loc)
    (old v : value) :
  SplitN s = (s, None) -> deref st l !! s = Some old ->
  exists st',
    ReplaceParameter st s (VMapPtr l) v = Ret (true, st')
    /\ GetParameter st' s (VMap l) = Ret (v, true)
    /\ (forall s', SplitN s' = (s', None) -> s' <> s ->
                   GetParameter st' s' (VMap l) = GetParameter st s' (VMap l))
    /\ (forall l', l' <> l -> deref st' l' = deref st l').
Proof.
  intros Hs Hold. eexists. split; [|split; [|split]].
  - rewrite (ReplaceParameter_pointer_last _ _ _ _ Hs), Hold. reflexivity.
  - rewrite (GetParameter_map_last _ _ _ Hs), deref_insert.
    destruct (decide (l = l)); [|done]. now rewrite lookup_insert_eq.
  - intros s' Hs' Hne.
    rewrite !(GetParameter_map_last _ _ _ Hs'), deref_insert.
    destruct (decide (l = l)); [|done]. now rewrite lookup_insert_ne.
  - intros l' Hne. rewrite deref_insert.
    destruct (decide (l = l')); [congruence|done].
Qed.

(** ** Arguments, rules and signatures, continued *)

Lemma forallb_negb_existsb (bs : list bool) :
  negb (forallb id bs) = existsb id (map negb bs).
Proof.
  induction bs as [|b bs IH]; simpl; [reflexivity|].
  rewrite negb_andb, IH. reflexivity.
Qed.


Section More_rule_properties.
Variable Sprintf_v : store -> value -> string.
Variable json_Marshal : store -> option loc -> option string.
Variable regexp_MatchString : string -> string -> bool * option error.
Variable HMAC_SHA1 : list Byte.byte -> list Byte.byte -> list Byte.byte.

Local Abbreviation Get := (Argument_Get Sprintf_v json_Marshal).
Local Abbreviation Check := (CheckPayloadSignature HMAC_SHA1).
Local Abbreviation Eval :=
  (Rules_Evaluate Sprintf_v json_Marshal regexp_MatchString HMAC_SHA1).
Local Abbreviation EvalAnd :=
  (AndRule_Evaluate Sprintf_v json_Marshal regexp_MatchString HMAC_SHA1).
Local Abbreviation EvalOr :=
  (OrRule_Evaluate Sprintf_v json_Marshal regexp_MatchString HMAC_SHA1).


Section One_request.
Variable st : store.
Variables headers query payload : option loc.

(** X7. Resolving an argument panics only inside GetParameter: exactly
    when the source is header, url or payload, the pointer to that
    domain is not nil and GetParameter panics on the name below the
    map.  The literal source, the three entire sources, an unknown
    source and a nil domain never panic. *)
Theorem Argument_Get_panics (ha : Argument) (x : panic) :
  Get st ha headers query payload = Panic x
  <-> exists l, splice_target ha headers query payload l
                /\ GetParameter st (Name ha) (VMap l) = Panic x.
Proof using Sprintf_v json_Marshal st headers query payload.
  split.
  - unfold Argument_Get, ExtractParameterAsString, splice_target.
    repeat match goal with
    | |- context [String.eqb ?a ?b] => destruct (String.eqb_spec a b)
    end;
    repeat match goal with
    | |- context [match ?o with Some _ => _ | None => _ end] =>
        destruct o eqn:?; simpl
    end; try discriminate;
    match goal with
    | |- context [GetParameter ?s ?n ?v] =>
        destruct (GetParameter s n v) as [[pValue [|]]|] eqn:Hget; simpl;
        try discriminate; intros [= <-]; eexists; split; [|exact Hget]; eauto
    end.
  - intros (l & Ht & Hget).
    rewrite (Get_splice_target Sprintf_v json_Marshal st headers query payload
               ha l Ht).
    unfold ExtractParameterAsString. now rewrite Hget.
Qed.

Variable body : option (list Byte.byte).

Local Abbreviation eval := (Eval st headers query payload body).

Lemma AndRule_loop_conjunction (rs : list Rules) (bs : list bool) :
  Forall2 (fun v b => eval v = Ret (b, None)) rs bs ->
  AndRule_loop eval true rs = Ret (forallb id bs, None).
Proof.
  induction 1 as [|v b rs bs Hv _ IH]; simpl; [reflexivity|].
  rewrite Hv. simpl. destruct b; simpl; [exact IH|reflexivity].
Qed.

Lemma OrRule_loop_disjunction (rs : list Rules) (bs : list bool) :
  Forall2 (fun v b => eval v = Ret (b, None)) rs bs ->
  OrRule_loop eval false rs = Ret (existsb id bs, None).
Proof.
  induction 1 as [|v b rs bs Hv _ IH]; simpl; [reflexivity|].
  rewrite Hv. simpl. destruct b; simpl; [reflexivity|exact IH].
Qed.

(** X8. When every child returns without an error, And is the
    conjunction and Or the disjunction of the booleans of the children,
    with a nil error. *)
Theorem AndRule_OrRule_without_errors (rs : list Rules) (bs : list bool) :
  Forall2 (fun v b => eval v = Ret (b, None)) rs bs ->
  EvalAnd st headers query payload body rs = Ret (forallb id bs, None)
  /\ EvalOr st headers query payload body rs = Ret (existsb id bs, None).
Proof.
  intros H. split.
  - now apply AndRule_loop_conjunction.
  - now apply OrRule_loop_disjunction.
Qed.

(** X9. And returns (true, nil) exactly when every child returns
    (true, nil); Or returns (false, nil) exactly when every child
    returns (false, nil). *)
Theorem AndRule_true_iff_all_true (rs : list Rules) :
  (EvalAnd st headers query payload body rs = Ret (true, None)
   <-> Forall (fun v => eval v = Ret (true, None)) rs)
  /\ (EvalOr st headers query payload body rs = Ret (false, None)
      <-> Forall (fun v => eval v = Ret (false, None)) rs).
Proof.
  unfold AndRule_Evaluate, OrRule_Evaluate. split; split.
  - induction rs as [|v rs IH]; simpl; [constructor|].
    destruct (eval v) as [[[|] [e|]]|] eqn:Hv; simpl; try discriminate.
    intros H. constructor; [exact Hv|now apply IH].
  - intros H. rewrite <- (app_nil_r rs).
    now rewrite (AndRule_loop_passes _ _ _ H).
  - induction rs as [|v rs IH]; simpl; [constructor|].
    destruct (eval v) as [[[|] [e|]]|] eqn:Hv; simpl; try discriminate.
    intros H. constructor; [exact Hv|now apply IH].
  - intros H. rewrite <- (app_nil_r rs).
    now rewrite (OrRule_loop_passes _ _ _ H).
Qed.

Lemma AndRule_loop_error (rs : list Rules) (b : bool) (e : error) :
  AndRule_loop eval true rs = Ret (b, Some e) ->
  b = false /\ exists c b', c ∈ rs /\ eval c = Ret (b', Some e).
Proof.
  induction rs as [|v rs IH]; simpl; [discriminate|].
  destruct (eval v) as [[rv [e'|]]|] eqn:Hv; simpl; try discriminate.
  - intros [= <- <-]. split; [reflexivity|].
    exists v, rv. split; [left|exact Hv].
  - destruct rv; simpl; [|discriminate].
    intros H. destruct (IH H) as (-> & c & b' & Hc & Hev).
    split; [reflexivity|]. exists c, b'. split; [now right|exact Hev].
Qed.

Lemma OrRule_loop_error (rs : list Rules) (b : bool) (e : error) :
  OrRule_loop eval false rs = Ret (b, Some e) ->
  b = false /\ exists c b', c ∈ rs /\ eval c = Ret (b', Some e).
Proof.
  induction rs as [|v rs IH]; simpl; [discriminate|].
  destruct (eval v) as [[rv [e'|]]|] eqn:Hv; simpl; try discriminate.
  - intros [= <- <-]. split; [reflexivity|].
    exists v, rv. split; [left|exact Hv].
  - destruct rv; simpl; [discriminate|].
    intros H. destruct (IH H) as (-> & c & b' & Hc & Hev).
    split; [reflexivity|]. exists c, b'. split; [now right|exact Hev].
Qed.

(** X10. An error of And or Or always comes with false and is the error
    that one of the children returned; neither makes up an error nor
    returns true next to one. *)
Theorem AndRule_OrRule_errors (rs : list Rules) (b : bool) (e : error) :
  EvalAnd st headers query payload body rs = Ret (b, Some e)
  \/ EvalOr st headers query payload body rs = Ret (b, Some e) ->
  b = false /\ exists c b', c ∈ rs /\ eval c = Ret (b', Some e).
Proof.
  intros [H|H].
  - now apply AndRule_loop_error.
  - now apply OrRule_loop_error.
Qed.

(** X11. Two negations cancel: Not of Not of a rule evaluates to what
    the rule evaluates to, boolean, error and panic alike. *)
Theorem NotRule_involutive (r : Rules) :
  eval (not_node (not_node r)) = eval r.
Proof.
  unfold not_node. simpl.
  destruct (eval r) as [[b e]|]; simpl; [|reflexivity].
  now rewrite negb_involutive.
Qed.

(** X12. De Morgan: when every child returns without an error, Not of
    And of the children evaluates to what Or of the negated children
    evaluates to, and Not of Or to And of the negated children. *)
Theorem NotRule_de_Morgan (rs : list Rules) :
  Forall (fun v => exists b, eval v = Ret (b, None)) rs ->
  eval (not_node (mkRules (Some rs) None None None))
  = eval (mkRules None (Some (map not_node rs)) None None)
  /\ eval (not_node (mkRules None (Some rs) None None))
     = eval (mkRules (Some (map not_node rs)) None None None).
Proof.
  intros H.
  assert (Hbs : exists bs, Forall2 (fun v b => eval v = Ret (b, None)) rs bs).
  { induction H as [|v rs [b Hv] _ [bs IH]].
    - exists []. constructor.
    - exists (b :: bs). now constructor. }
  destruct Hbs as [bs Hbs].
  assert (Hneg : Forall2 (fun v b => eval v = Ret (b, None))
                   (map not_node rs) (map negb bs)).
  { clear H. induction Hbs as [|v b rs bs Hv _ IH]; simpl; constructor.
    - unfold not_node. simpl. now rewrite Hv.
    - exact IH. }
  split.
  - change (eval (mkRules None (Some (map not_node rs)) None None))
      with (OrRule_loop eval false (map not_node rs)).
    rewrite (OrRule_loop_disjunction _ _ Hneg).
    change (eval (not_node (mkRules (Some rs) None None None)))
      with (r_ <~ AndRule_loop eval true rs ;;
            let '(rv, err) := r_ in Ret (negb rv, err)).
    rewrite (AndRule_loop_conjunction _ _ Hbs). simpl.
    now rewrite forallb_negb_existsb.
  - change (eval (mkRules (Some (map not_node rs)) None None None))
      with (AndRule_loop eval true (map not_node rs)).
    rewrite (AndRule_loop_conjunction _ _ Hneg).
    change (eval (not_node (mkRules None (Some rs) None None)))
      with (r_ <~ OrRule_loop eval false rs ;;
            let '(rv, err) := r_ in Ret (negb rv, err)).
    rewrite (OrRule_loop_disjunction _ _ Hbs). simpl.
    rewrite <- (negb_involutive (forallb id (map negb bs))).
    rewrite forallb_negb_existsb, map_map.
    f_equal. f_equal. f_equal. clear. induction bs as [|b bs IH]; simpl;
      [reflexivity|]. now rewrite negb_involutive, IH.
Qed.
End One_request.
End More_rule_properties.

(** ** Hook extraction, continued *)

Section More_hook_properties.
Variable Sprintf_v : store -> value -> string.
Variable json_Marshal : store -> option loc -> option string.
Variable json_Decode : store -> string -> string + value * store.

Local Abbreviation Get := (Argument_Get Sprintf_v json_Marshal).

Section One_request.
Variables headers query payload : option loc.

(** An argument that resolves has its domain, or one of the four sources
    that need none. *)
Lemma Get_found_source (st : store) (a : Argument) (arg : string) :
  Get st a headers query payload = Ret (arg, true) ->
  (exists l, splice_target a headers query payload l)
  \/ Source a = SourceString \/ Source a = SourceEntirePayload
  \/ Source a = SourceEntireHeaders \/ Source a = SourceEntireQuery.
Proof using Sprintf_v json_Marshal headers query payload.
  unfold Argument_Get, splice_target.
  repeat match goal with
  | |- context [String.eqb ?x ?y] => destruct (String.eqb_spec x y)
  end;
  try discriminate; try (intros _; right; eauto 10; fail);
  match goal with
  | |- (match ?o with Some _ => _ | None => _ end) = _ -> _ =>
      destruct o as [l|]; [intros _; left; exists l; eauto 10|discriminate]
  end.
Qed.

Lemma splice_source (p : Argument) (l : loc) :
  splice_target p headers query payload l ->
  (if String.eqb (Source p) SourceHeader then headers
   else if String.eqb (Source p) SourcePayload then payload
   else if String.eqb (Source p) SourceQuery then query
   else None) = Some l.
Proof.
  intros [[-> ->] | [[-> ->] | [-> ->]]]; reflexivity.
Qed.

Lemma ParseJSONParameters_loop_errors (params : list Argument) :
  forall (st st' : store) (e : error),
    ParseJSONParameters_loop Sprintf_v json_Marshal json_Decode st params
      headers query payload = Ret (Some e, st') ->
    (exists msg, e = ParseError msg)
    \/ exists a, a ∈ params
         /\ (e = ArgumentError a
             \/ (e = SourceError a
                 /\ (Source a = SourceString \/ Source a = SourceEntirePayload
                     \/ Source a = SourceEntireHeaders
                     \/ Source a = SourceEntireQuery))).
Proof.
  induction params as [|p params IH]; intros st st' e; simpl; [discriminate|].
  destruct (Get st p headers query payload) as [[arg [|]]|] eqn:Hget; simpl;
    try discriminate.
  - destruct (json_Decode st arg) as [msg | [newArg st1]].
    + intros [= <- _]. left. now exists msg.
    + destruct (Get_found_source _ _ _ Hget) as [[l Ht] | Hsrc].
      * rewrite (splice_source _ _ Ht).
        destruct (ReplaceParameter st1 (Name p) (VMapPtr l) newArg)
          as [[b st2]|]; simpl; [|discriminate].
        intros H. destruct (IH _ _ _ H) as [Hp | (a & Ha & Hcase)];
          [now left|right].
        exists a. split; [now right|exact Hcase].
      * destruct (if String.eqb (Source p) SourceHeader then headers
                  else if String.eqb (Source p) SourcePayload then payload
                  else if String.eqb (Source p) SourceQuery then query
                  else None) as [l|] eqn:Hchain.
        { exfalso. destruct Hsrc as [H | [H | [H | H]]]; rewrite H in Hchain;
            discriminate. }
        intros [= <- _]. right. exists p. split; [left|]. right. now split.
  - intros [= <- _]. right. exists p. split; [left|]. now left.
Qed.

(** X13. An error of ParseJSONParameters is a ParseError, or the
    ArgumentError or SourceError of one of the declared parameters; and
    a SourceError is only ever that of a parameter whose source is
    string or one of the three entire sources: with header, url or
    payload a nil domain gives the ArgumentError. *)
Theorem ParseJSONParameters_errors (h : Hook) (st st' : store) (e : error) :
  ParseJSONParameters Sprintf_v json_Marshal json_Decode h st headers query
    payload = Ret (Some e, st') ->
  (exists msg, e = ParseError msg)
  \/ exists a, a ∈ JSONStringParameters h
       /\ (e = ArgumentError a
           \/ (e = SourceError a
               /\ (Source a = SourceString \/ Source a = SourceEntirePayload
                   \/ Source a = SourceEntireHeaders
                   \/ Source a = SourceEntireQuery))).
Proof. apply ParseJSONParameters_loop_errors. Qed.

(** X14. The splice that works: for a single parameter whose name has
    no dot and resolves in its domain, and a decoder that leaves the map
    of the domain as it was, ParseJSONParameters returns nil and the key
    holds the decoded value afterwards. *)
Theorem ParseJSONParameters_top_level (h : Hook) (st st1 : store)
    (p : Argument) (l : loc) (arg : string) (newArg : value) :
  JSONStringParameters h = [p] ->
  splice_target p headers query payload l ->
  SplitN (Name p) = (Name p, None) ->
  Get st p headers query payload = Ret (arg, true) ->
  json_Decode st arg = inr (newArg, st1) ->
  deref st1 l = deref st l ->
  exists st2,
    ParseJSONParameters Sprintf_v json_Marshal json_Decode h st headers query
      payload = Ret (None, st2)
    /\ GetParameter st2 (Name p) (VMap l) = Ret (newArg, true)
    /\ (forall l', l' <> l -> deref st2 l' = deref st1 l').
Proof.
  intros Hh Ht Hs Hget Hdec Hsame.
  assert (Hkey : exists old, deref st1 l !! Name p = Some old).
  { rewrite (Get_splice_target _ _ _ _ _ _ _ _ Ht) in Hget.
    unfold ExtractParameterAsString in Hget.
    rewrite (GetParameter_map_last _ _ _ Hs) in Hget. rewrite Hsame.
    destruct (deref st l !! Name p); [eauto|discriminate]. }
  destruct Hkey as [old Hold].
  destruct (ReplaceParameter_top_level st1 (Name p) l old newArg Hs Hold)
    as (st2 & Hrep & Hread & _ & Hframe).
  exists st2. split; [|split; [exact Hread|exact Hframe]].
  unfold ParseJSONParameters. rewrite Hh.
  rewrite (ParseJSONParameters_loop_splice _ _ _ _ _ _ _ _ _ _ _ _ _ Ht Hget Hdec).
  rewrite Hrep. reflexivity.
Qed.
End One_request.
End More_hook_properties.

(** ** The shape of the extracted lists *)

Lemma prefix_EnvNamespace (s : string) :
  String.prefix "HOOK_" (EnvNamespace +:+ s) = true.
Proof. simpl. now destruct s. Qed.

Section Extraction_shape.
Variable Sprintf_v : store -> value -> string.
Variable json_Marshal : store -> option loc -> option string.
Variable st : store.
Variables headers query payload : option loc.

Lemma ExtractCommandArguments_loop_shape (params : list Argument) :
  forall (args out : list string) (err : option error),
    ExtractCommandArguments_loop Sprintf_v json_Marshal st headers query
      payload args params = Ret (out, err) ->
    exists tl,
      out = (args ++ tl)%list
      /\ (length tl <= length params)%nat
      /\ (err = None -> length tl = length params)
      /\ (forall e, err = Some e ->
            last out = Some EmptyString
            /\ exists a, a ∈ params /\ e = ArgumentError a).
Proof.
  induction params as [|p params IH]; intros args out err; simpl.
  - intros [= <- <-]. exists []. rewrite app_nil_r.
    repeat split; try reflexivity; discriminate.
  - destruct (Argument_Get Sprintf_v json_Marshal st p headers query payload)
      as [[arg [|]]|]; simpl; [| |discriminate].
    + intros H. destruct (IH _ _ _ H) as (tl & -> & Hle & Hnone & Hsome).
      exists (arg :: tl). rewrite <- app_assoc. simpl.
      split; [reflexivity|]. split; [lia|]. split.
      * intros E. now rewrite (Hnone E).
      * intros e E. destruct (Hsome e E) as (Hlast & a & Ha & ->).
        split; [now rewrite <- app_assoc in Hlast|].
        exists a. split; [now right|reflexivity].
    + intros [= <- <-]. exists [EmptyString]. simpl.
      split; [reflexivity|]. split; [lia|]. split; [discriminate|].
      intros e [= <-]. split; [now rewrite last_snoc|].
      exists p. split; [left|reflexivity].
Qed.

(** X15. Whatever ExtractCommandArguments returns starts with the
    command and has at most one element per declared argument after it:
    exactly one each when the error is nil; and an error is the
    ArgumentError of a declared argument, with the empty string as the
    last element of the list. *)
Theorem ExtractCommandArguments_shape (h : Hook) (out : list string)
    (err : option error) :
  ExtractCommandArguments Sprintf_v json_Marshal h st headers query payload
  = Ret (out, err) ->
  exists tl,
    out = ExecuteCommand h :: tl
    /\ (length tl <= length (PassArgumentsToCommand h))%nat
    /\ (err = None -> length tl = length (PassArgumentsToCommand h))
    /\ (forall e, err = Some e ->
          last out = Some EmptyString
          /\ exists a, a ∈ PassArgumentsToCommand h /\ e = ArgumentError a).
Proof.
  unfold ExtractCommandArguments. intros H.
  destruct (ExtractCommandArguments_loop_shape _ _ _ _ H)
    as (tl & -> & Hrest).
  exists tl. split; [reflexivity|exact Hrest].
Qed.

Lemma ExtractCommandArgumentsForEnv_loop_shape (params : list Argument) :
  forall (args out : list string) (err : option error),
    ExtractCommandArgumentsForEnv_loop Sprintf_v json_Marshal st headers
      query payload args params = Ret (out, err) ->
    exists tl,
      out = (args ++ tl)%list
      /\ Forall (fun s => String.prefix "HOOK_" s = true) tl
      /\ (err = None -> length tl = length params)
      /\ (forall e, err = Some e ->
            (length tl < length params)%nat
            /\ exists a, a ∈ params /\ e = ArgumentError a).
Proof.
  induction params as [|p params IH]; intros args out err; simpl.
  - intros [= <- <-]. exists []. rewrite app_nil_r.
    repeat split; try reflexivity; try constructor; discriminate.
  - destruct (Argument_Get Sprintf_v json_Marshal st p headers query payload)
      as [[arg [|]]|]; simpl; [| |discriminate].
    + intros H. destruct (IH _ _ _ H) as (tl & -> & Hall & Hnone & Hsome).
      exists ((EnvNamespace +:+ Name p +:+ "=" +:+ arg) :: tl).
      rewrite <- app_assoc. simpl.
      split; [reflexivity|]. split.
      { constructor; [apply prefix_EnvNamespace|exact Hall]. }
      split.
      * intros E. now rewrite (Hnone E).
      * intros e E. destruct (Hsome e E) as (Hlt & a & Ha & ->).
        split; [lia|]. exists a. split; [now right|reflexivity].
    + intros [= <- <-]. exists []. rewrite app_nil_r. simpl.
      split; [reflexivity|]. split; [constructor|]. split; [discriminate|].
      intros e [= <-]. split; [lia|].
      exists p. split; [left|reflexivity].
Qed.

(** X16. Every entry that ExtractCommandArgumentsForEnv returns starts
    with "HOOK_"; there is one entry per declared argument when the
    error is nil and fewer entries than declared arguments when there is
    an error, which is the ArgumentError of a declared argument. *)
Theorem ExtractCommandArgumentsForEnv_shape (h : Hook) (out : list string)
    (err : option error) :
  ExtractCommandArgumentsForEnv Sprintf_v json_Marshal h st headers query
    payload = Ret (out, err) ->
  Forall (fun s => String.prefix "HOOK_" s = true) out
  /\ (err = None -> length out = length (PassEnvironmentToCommand h))
  /\ (forall e, err = Some e ->
        (length out < length (PassEnvironmentToCommand h))%nat
        /\ exists a, a ∈ PassEnvironmentToCommand h /\ e = ArgumentError a).
Proof.
  unfold ExtractCommandArgumentsForEnv. intros H.
  destruct (ExtractCommandArgumentsForEnv_loop_shape _ _ _ _ H)
    as (tl & -> & Hrest).
  exact Hrest.
Qed.
End Extraction_shape.

(** ** Looking hooks up by ID *)

Lemma indices_of_cons (x : Hook) (h : list Hook) (id : string) :
  indices_of (x :: h) id
  = ((if String.eqb (ID x) id then [0%nat] else []) ++ map S (indices_of h id))%list.
Proof.
  unfold indices_of. simpl length. rewrite <- cons_seq, <- seq_shift.
  simpl List.filter. rewrite filter_map_swap.
  unfold has_ID at 1. simpl.
  now destruct (String.eqb (ID x) id).
Qed.

Lemma Hooks_MatchAll_loop_indices (h : list Hook) (id : string) :
  forall (i : nat) (matchedHooks : list nat),
    Hooks_MatchAll_loop i h id matchedHooks
    = (matchedHooks ++ map (Nat.add i) (indices_of h id))%list.
Proof.
  induction h as [|x h IH]; intros i acc; simpl.
  - now rewrite app_nil_r.
  - rewrite indices_of_cons.
    assert (Hshift : map (Nat.add i) (map S (indices_of h id))
                     = map (Nat.add (S i)) (indices_of h id)).
    { rewrite map_map. apply map_ext. intros k. lia. }
    destruct (String.eqb (ID x) id); rewrite IH; simpl.
    + rewrite <- app_assoc. simpl. now rewrite Nat.add_0_r, Hshift.
    + now rewrite Hshift.
Qed.

Lemma Hooks_Match_loop_indices (h : list Hook) (id : string) :
  forall i : nat,
    Hooks_Match_loop i h id = head (map (Nat.add i) (indices_of h id)).
Proof.
  induction h as [|x h IH]; intros i; simpl; [reflexivity|].
  rewrite indices_of_cons.
  destruct (String.eqb (ID x) id); simpl.
  - now rewrite Nat.add_0_r.
  - rewrite IH, map_map. f_equal. apply map_ext. intros k. lia.
Qed.

Lemma map_add_0 (l : list nat) : map (Nat.add 0) l = l.
Proof.
  induction l as [|k l IH]; [reflexivity|].
  cbn [map]. f_equal. exact IH.
Qed.

(** X17. Hooks.MatchAll returns the pointers to all the hooks with the
    given ID and to no other, in the order of the slice, each once. *)
Theorem Hooks_MatchAll_indices (h : list Hook) (id : string) :
  Hooks_MatchAll h id = List.filter (has_ID h id) (seq 0 (length h)).
Proof.
  unfold Hooks_MatchAll. rewrite Hooks_MatchAll_loop_indices.
  rewrite map_add_0, app_nil_l. fold (indices_of h id).
  now destruct (indices_of h id).
Qed.

(** X18. Hooks.Match returns the first of the hooks that Hooks.MatchAll
    returns, and nil exactly when Hooks.MatchAll returns nil. *)
Theorem Hooks_Match_head_MatchAll (h : list Hook) (id : string) :
  Hooks_Match h id = head (Hooks_MatchAll h id).
Proof.
  unfold Hooks_Match, Hooks_MatchAll.
  rewrite Hooks_Match_loop_indices, Hooks_MatchAll_loop_indices.
  rewrite map_add_0, app_nil_l. now destruct (indices_of h id).
Qed.

Lemma Hooks_Match_loop_first (h : list Hook) (id : string) :
  forall i : nat,
    match Hooks_Match_loop i h id with
    | Some j =>
        exists k x, j = (i + k)%nat /\ h !! k = Some x /\ ID x = id
                    /\ forall k' x', (k' < k)%nat -> h !! k' = Some x' ->
                                     ID x' <> id
    | None => forall k x, h !! k = Some x -> ID x <> id
    end.
Proof.
  induction h as [|x h IH]; intros i; simpl.
  - intros k y Hk. discriminate.
  - destruct (String.eqb_spec (ID x) id) as [E|E].
    + exists 0%nat, x. repeat split; [lia|exact E|]. intros k' x' Hlt. lia.
    + specialize (IH (S i)). destruct (Hooks_Match_loop (S i) h id) as [j|].
      * destruct IH as (k & y & -> & Hk & Hid & Hfirst).
        exists (S k), y. repeat split; [lia|exact Hk|exact Hid|].
        intros [|k'] x' Hlt Hx'; simpl in Hx'.
        -- now injection Hx' as <-.
        -- apply (Hfirst k' x'); [lia|exact Hx'].
      * intros [|k] y Hy; simpl in Hy.
        -- now injection Hy as <-.
        -- now apply (IH k y).
Qed.

(** X19. Hooks.Match returns the pointer to the hook at [i] exactly when
    that hook has the given ID and no hook before it has; it returns nil
    exactly when no hook of the slice has the ID. *)
Theorem Hooks_Match_first (h : list Hook) (id : string) :
  (forall i, Hooks_Match h id = Some i
             <-> (exists x, h !! i = Some x /\ ID x = id)
                 /\ forall j x', (j < i)%nat -> h !! j = Some x' -> ID x' <> id)
  /\ (Hooks_Match h id = None <-> forall x, x ∈ h -> ID x <> id).
Proof.
  unfold Hooks_Match. pose proof (Hooks_Match_loop_first h id 0) as H.
  destruct (Hooks_Match_loop 0 h id) as [j|].
  - destruct H as (k & x & -> & Hk & Hid & Hfirst). simpl. split.
    + intros i. split.
      * intros [= <-]. split; [now exists x|exact Hfirst].
      * intros [(y & Hy & Hyid) Hbefore].
        destruct (Nat.lt_trichotomy i k) as [Hlt | [-> | Hgt]]; [|reflexivity|].
        -- exfalso. exact (Hfirst i y Hlt Hy Hyid).
        -- exfalso. exact (Hbefore k x Hgt Hk Hid).
    + split; [discriminate|]. intros Hnone. exfalso.
      apply (Hnone x); [|exact Hid]. apply list_elem_of_lookup. now exists k.
  - split.
    + intros i. split; [discriminate|].
      intros [(y & Hy & Hyid) _]. exfalso. exact (H i y Hy Hyid).
    + split; [|reflexivity]. intros _ x Hx.
      apply list_elem_of_lookup in Hx as [k Hk]. exact (H k x Hk).
Qed.

(** ** Response headers *)

Lemma string_append_assoc (a b c : string) :
  (a +:+ b) +:+ c = a +:+ (b +:+ c).
Proof.
  induction a as [|x a IH]; [reflexivity|].
  change (String x ((a +:+ b) +:+ c) = String x (a +:+ (b +:+ c))).
  now rewrite IH.
Qed.

Lemma SplitN_at_found (sep : ascii) (s p0 p1 : string) :
  SplitN_at sep s = (p0, Some p1) ->
  s = p0 +:+ String sep p1
  /\ forall a b, p0 <> a +:+ String sep b.
Proof.
  revert p0. induction s as [|c s IH]; intros p0; simpl; [discriminate|].
  destruct (Ascii.eqb_spec c sep) as [->|Hne].
  - intros [= <- <-]. split; [reflexivity|]. intros [|? ?] b; discriminate.
  - destruct (SplitN_at sep s) as [q0 q1] eqn:E. intros [= <- ->].
    destruct (IH q0 eq_refl) as [-> Hno]. split; [reflexivity|].
    intros [|x a] b; simpl; intros [= Hc Hrest]; [congruence|].
    exact (Hno a b Hrest).
Qed.

Lemma SplitN_at_not_found (sep : ascii) (s p0 : string) :
  SplitN_at sep s = (p0, None) ->
  p0 = s /\ forall a b, s <> a +:+ String sep b.
Proof.
  revert p0. induction s as [|c s IH]; intros p0; simpl.
  - intros [= <-]. split; [reflexivity|]. intros [|? ?] b; discriminate.
  - destruct (Ascii.eqb_spec c sep) as [->|Hne]; [discriminate|].
    destruct (SplitN_at sep s) as [q0 q1] eqn:E. intros [= <- ->].
    destruct (IH q0 eq_refl) as [-> Hno]. split; [reflexivity|].
    intros [|x a] b; simpl; intros [= Hc Hrest]; [congruence|].
    exact (Hno a b Hrest).
Qed.

(** X20. ResponseHeaders.Set succeeds exactly on the values of the form
    name=value: it then appends one header, whose name is what precedes
    the first "=" and whose value is all that follows it, and leaves the
    headers before it as they were; on any other value it returns the
    error and leaves the headers unchanged. *)
Theorem ResponseHeaders_Set_cases (h : list Header) (value_ : string) :
  (exists name val,
      ResponseHeaders_Set h value_ = ((h ++ [mkHeader name val])%list, None)
      /\ value_ = name +:+ "=" +:+ val
      /\ forall a b, name <> a +:+ "=" +:+ b)
  \/ (ResponseHeaders_Set h value_
      = (h, Some (LibraryError "header flag must be in name=value format"))
      /\ forall name val, value_ <> name +:+ "=" +:+ val).
Proof.
  unfold ResponseHeaders_Set.
  destruct (SplitN_at "="%char value_) as [p0 [p1|]] eqn:E.
  - left. exists p0, p1. split; [reflexivity|].
    exact (SplitN_at_found _ _ _ _ E).
  - right. split; [reflexivity|].
    exact (proj2 (SplitN_at_not_found _ _ _ E)).
Qed.

Lemma strings_Join_snoc (elems : list string) (x sep : string) :
  elems <> [] ->
  strings_Join (elems ++ [x]) sep = strings_Join elems sep +:+ sep +:+ x.
Proof.
  induction elems as [|y elems IH]; [congruence|]. intros _.
  destruct elems as [|z elems]; [reflexivity|].
  change (strings_Join ((y :: z :: elems) ++ [x]) sep)
    with (y +:+ sep +:+ strings_Join ((z :: elems) ++ [x]) sep).
  rewrite IH by discriminate.
  change (strings_Join (y :: z :: elems) sep)
    with (y +:+ sep +:+ strings_Join (z :: elems) sep).
  now rewrite !string_append_assoc.
Qed.

(** X21. What ResponseHeaders.Set accepts, ResponseHeaders.String gives
    back: after a successful Set of [value] on no headers the string is
    [value]; on headers that are there it is the string of before, ", "
    and [value]. *)
Theorem ResponseHeaders_Set_String (h h' : list Header) (value_ : string) :
  ResponseHeaders_Set h value_ = (h', None) ->
  ResponseHeaders_String h'
  = if (length h =? 0)%nat then value_
    else ResponseHeaders_String h +:+ ", " +:+ value_.
Proof.
  unfold ResponseHeaders_Set.
  destruct (SplitN_at "="%char value_) as [p0 [p1|]] eqn:E; [|discriminate].
  intros [= <-]. destruct (SplitN_at_found _ _ _ _ E) as [-> _].
  unfold ResponseHeaders_String. rewrite length_app. simpl.
  replace (length h + 1 =? 0)%nat with false
    by (symmetry; apply Nat.eqb_neq; lia).
  destruct h as [|x h]; [reflexivity|]. simpl (length (x :: h) =? 0)%nat.
  rewrite map_app. simpl map at 2. now rewrite strings_Join_snoc.
Qed.

(** ** Errors and panics of a rule tree come from its match rules *)

Section Rule_tree.
Variable P : Rules -> Prop.
Hypothesis P_node :
  forall and_ or_ not_ match_,
    from_option (Forall P) True and_ ->
    from_option (Forall P) True or_ ->
    from_option P True not_ ->
    P (mkRules and_ or_ not_ match_).

Lemma Rules_tree_ind (r : Rules) : P r.
Proof.
  revert r. fix IH 1. intros [and_ or_ not_ match_]. apply P_node.
  - destruct and_ as [l|]; simpl; [|exact I].
    induction l as [|x l IHl]; constructor; [apply IH|exact IHl].
  - destruct or_ as [l|]; simpl; [|exact I].
    induction l as [|x l IHl]; constructor; [apply IH|exact IHl].
  - destruct not_ as [r|]; simpl; [apply IH|exact I].
Qed.
End Rule_tree.

Section Leaves.
Variable Sprintf_v : store -> value -> string.
Variable json_Marshal : store -> option loc -> option string.
Variable regexp_MatchString : string -> string -> bool * option error.
Variable HMAC_SHA1 : list Byte.byte -> list Byte.byte -> list Byte.byte.
Variable st : store.
Variables headers query payload : option loc.
Variable body : option (list Byte.byte).

Local Abbreviation eval :=
  (Rules_Evaluate Sprintf_v json_Marshal regexp_MatchString HMAC_SHA1 st
     headers query payload body).
Local Abbreviation eval_match :=
  (MatchRule_Evaluate Sprintf_v json_Marshal regexp_MatchString HMAC_SHA1 st
     headers query payload body).

(** [outcome_from_leaf r]: an error or a panic of [r] is the error or
    the panic of one of its match rules. *)
Local Abbreviation outcome_from_leaf := (fun r : Rules =>
  (forall b e, eval r = Ret (b, Some e) ->
     exists m b', m ∈ Rules_leaves r /\ eval_match m = Ret (b', Some e))
  /\ (forall x, eval r = Panic x ->
        exists m, m ∈ Rules_leaves r /\ eval_match m = Panic x)).

Lemma AndRule_loop_outcome (rs : list Rules) :
  Forall outcome_from_leaf rs ->
  (forall b e, AndRule_loop eval true rs = Ret (b, Some e) ->
     exists m b', m ∈ flat_map Rules_leaves rs
                  /\ eval_match m = Ret (b', Some e))
  /\ (forall x, AndRule_loop eval true rs = Panic x ->
        exists m, m ∈ flat_map Rules_leaves rs /\ eval_match m = Panic x).
Proof.
  induction 1 as [|v rs [Hve Hvp] _ [IHe IHp]]; simpl.
  - split; intros; discriminate.
  - destruct (eval v) as [[rv [e'|]]|x'] eqn:Hv; simpl.
    + split; [|discriminate]. intros b e [= <- <-].
      destruct (Hve rv e' eq_refl) as (m & b' & Hm & Hev).
      exists m, b'. split; [|exact Hev]. apply elem_of_app. now left.
    + destruct rv; simpl; [|split; intros; discriminate]. split.
      * intros b e H. destruct (IHe b e H) as (m & b' & Hm & Hev).
        exists m, b'. split; [|exact Hev]. apply elem_of_app. now right.
      * intros x H. destruct (IHp x H) as (m & Hm & Hev).
        exists m. split; [|exact Hev]. apply elem_of_app. now right.
    + split; [discriminate|]. intros x [= <-].
      destruct (Hvp x' eq_refl) as (m & Hm & Hev).
      exists m. split; [|exact Hev]. apply elem_of_app. now left.
Qed.

Lemma OrRule_loop_outcome (rs : list Rules) :
  Forall outcome_from_leaf rs ->
  (forall b e, OrRule_loop eval false rs = Ret (b, Some e) ->
     exists m b', m ∈ flat_map Rules_leaves rs
                  /\ eval_match m = Ret (b', Some e))
  /\ (forall x, OrRule_loop eval false rs = Panic x ->
        exists m, m ∈ flat_map Rules_leaves rs /\ eval_match m = Panic x).
Proof.
  induction 1 as [|v rs [Hve Hvp] _ [IHe IHp]]; simpl.
  - split; intros; discriminate.
  - destruct (eval v) as [[rv [e'|]]|x'] eqn:Hv; simpl.
    + split; [|discriminate]. intros b e [= <- <-].
      destruct (Hve rv e' eq_refl) as (m & b' & Hm & Hev).
      exists m, b'. split; [|exact Hev]. apply elem_of_app. now left.
    + destruct rv; simpl; [split; intros; discriminate|]. split.
      * intros b e H. destruct (IHe b e H) as (m & b' & Hm & Hev).
        exists m, b'. split; [|exact Hev]. apply elem_of_app. now right.
      * intros x H. destruct (IHp x H) as (m & Hm & Hev).
        exists m. split; [|exact Hev]. apply elem_of_app. now right.
    + split; [discriminate|]. intros x [= <-].
      destruct (Hvp x' eq_refl) as (m & Hm & Hev).
      exists m. split; [|exact Hev]. apply elem_of_app. now left.
Qed.

Lemma Rules_Evaluate_outcome (r : Rules) : outcome_from_leaf r.
Proof.
  induction r as [and_ or_ not_ match_ Hand Hor Hnot] using Rules_tree_ind.
  destruct and_ as [rs|]; [exact (AndRule_loop_outcome rs Hand)|].
  destruct or_ as [rs|]; [exact (OrRule_loop_outcome rs Hor)|].
  destruct not_ as [r|].
  - simpl in Hnot. destruct Hnot as [He Hp]. simpl.
    destruct (eval r) as [[rv err]|x'] eqn:Hr; simpl; split.
    + intros b e [= <- ->]. exact (He rv e eq_refl).
    + discriminate.
    + discriminate.
    + intros x [= <-]. exact (Hp x' eq_refl).
  - destruct match_ as [m|]; simpl.
    + split.
      * intros b e H. exists m, b. split; [left|exact H].
      * intros x H. exists m. split; [left|exact H].
    + split; intros; discriminate.
Qed.

(** X22. The connectives add no error: an error that the evaluation of
    a rule tree returns is the error that one of its match rules, among
    those of the populated fields it evaluates, returns on the same
    request. *)
Theorem Rules_Evaluate_error_from_leaf (r : Rules) (b : bool) (e : error) :
  eval r = Ret (b, Some e) ->
  exists m b', m ∈ Rules_leaves r /\ eval_match m = Ret (b', Some e).
Proof. apply Rules_Evaluate_outcome. Qed.

(** X23. The connectives add no panic: when the evaluation of a rule
    tree panics, one of its match rules panics in the same way on the
    same request. *)
Theorem Rules_Evaluate_panic_from_leaf (r : Rules) (x : panic) :
  eval r = Panic x ->
  exists m, m ∈ Rules_leaves r /\ eval_match m = Panic x.
Proof. apply Rules_Evaluate_outcome. Qed.
End Leaves.

Section Flat_names.
Variable Sprintf_v : store -> value -> string.
Variable json_Marshal : store -> option loc -> option string.

(** X24. For a name without a dot, an argument of source header, url or
    payload is a plain lookup in the map of its domain: found, as the
    %v text of the value, exactly when the map has the key, and never a
    panic. *)
Theorem Argument_Get_flat_name (st : store) (ha : Argument)
    (headers query payload : option loc) (l : loc) :
  splice_target ha headers query payload l ->
  SplitN (Name ha) = (Name ha, None) ->
  Argument_Get Sprintf_v json_Marshal st ha headers query payload
  = match deref st l !! Name ha with
    | Some pValue => Ret (Sprintf_v st pValue, true)
    | None => Ret (EmptyString, false)
    end.
Proof.
  intros Ht Hs.
  rewrite (Get_splice_target Sprintf_v json_Marshal st headers query payload
             ha l Ht).
  unfold ExtractParameterAsString. rewrite (GetParameter_map_last _ _ _ Hs).
  now destruct (deref st l !! Name ha).
Qed.
End Flat_names.

(** ** The further properties at the sample requests *)

Lemma GetParameter_compose_witness :
  GetParameter st_ab "a" (VMap 0%nat) = Ret (VMap 1%nat, true)
  /\ GetParameter st_ab ("a" +:+ "." +:+ "b") (VMap 0%nat)
     = GetParameter st_ab "b" (VMap 1%nat).
Proof.
  assert (H : GetParameter st_ab "a" (VMap 0%nat) = Ret (VMap 1%nat, true))
    by (vm_compute; reflexivity).
  split; [exact H|].
  exact (GetParameter_compose st_ab "a" "b" (VMap 0%nat) (VMap 1%nat) H).
Defined.

Lemma GetParameter_not_found_is_nil_witness :
  GetParameter st_ab "a.c" (VMap 0%nat) = Ret (VNil, false) /\ VNil = VNil.
Proof.
  assert (H : GetParameter st_ab "a.c" (VMap 0%nat) = Ret (VNil, false))
    by (vm_compute; reflexivity).
  split; [exact H|].
  exact (GetParameter_not_found_is_nil st_ab "a.c" (VMap 0%nat) VNil H).
Defined.

Lemma GetParameter_ReplaceParameter_exclusive_witness :
  GetParameter st_req "ref" (VMap 1%nat) = Ret (VString "main", true)
  /\ ReplaceParameter st_req "ref" (VMap 1%nat) (VInt 2) <> Ret (true, st_req).
Proof.
  assert (H : GetParameter st_req "ref" (VMap 1%nat)
              = Ret (VString "main", true))
    by (vm_compute; reflexivity).
  split; [exact H|].
  exact (GetParameter_ReplaceParameter_exclusive st_req st_req "ref"
           (VMap 1%nat) (VString "main") (VInt 2) H).
Defined.

Lemma ReplaceParameter_effect_witness :
  ReplaceParameter st_json "a" (VMapPtr 0%nat) (VInt 2)
  = Ret (true, st_json_2)
  /\ forall l, dom (deref st_json_2 l) = dom (deref st_json l).
Proof.
  assert (H : ReplaceParameter st_json "a" (VMapPtr 0%nat) (VInt 2)
              = Ret (true, st_json_2))
    by (vm_compute; reflexivity).
  split; [exact H|].
  exact (proj2 (proj2 (ReplaceParameter_effect st_json st_json_2 "a"
                         (VMapPtr 0%nat) (VInt 2) true H))).
Defined.

Lemma ReplaceParameter_top_level_witness :
  exists st',
    ReplaceParameter st_json "a" (VMapPtr 0%nat) (VInt 2) = Ret (true, st')
    /\ GetParameter st' "a" (VMap 0%nat) = Ret (VInt 2, true)
    /\ (forall s', SplitN s' = (s', None) -> s' <> "a" ->
                   GetParameter st' s' (VMap 0%nat)
                   = GetParameter st_json s' (VMap 0%nat))
    /\ (forall l', l' <> 0%nat -> deref st' l' = deref st_json l').
Proof.
  apply (ReplaceParameter_top_level st_json "a" 0%nat (VString "{}") (VInt 2));
    vm_compute; reflexivity.
Defined.

Lemma AndRule_OrRule_without_errors_witness :
  AndRule_Evaluate Sprintf_v_scalar json_Marshal_nil regexp_MatchString_prefix
    HMAC_SHA1_toy st_req (Some 0%nat) None (Some 1%nat) (Some body_hello)
    [rule_of match_ref_main; rule_of match_ref_other]
  = Ret (false, None)
  /\ OrRule_Evaluate Sprintf_v_scalar json_Marshal_nil
       regexp_MatchString_prefix HMAC_SHA1_toy st_req (Some 0%nat) None
       (Some 1%nat) (Some body_hello)
       [rule_of match_ref_main; rule_of match_ref_other]
     = Ret (true, None).
Proof.
  apply (AndRule_OrRule_without_errors Sprintf_v_scalar json_Marshal_nil
           regexp_MatchString_prefix HMAC_SHA1_toy st_req (Some 0%nat) None
           (Some 1%nat) (Some body_hello)
           [rule_of match_ref_main; rule_of match_ref_other] [true; false]).
  repeat constructor.
Defined.

Lemma AndRule_OrRule_errors_witness :
  exists c b',
    c ∈ [rule_of match_ref_other; rule_of match_signature]
    /\ Eval_sample c = Ret (b', Some (SignatureError "7305")).
Proof.
  apply (AndRule_OrRule_errors Sprintf_v_scalar json_Marshal_nil
           regexp_MatchString_prefix HMAC_SHA1_toy st_req (Some 0%nat) None
           (Some 1%nat) (Some body_hello)
           [rule_of match_ref_other; rule_of match_signature] false
           (SignatureError "7305")).
  right. vm_compute. reflexivity.
Defined.

Lemma NotRule_de_Morgan_witness :
  Eval_sample
    (not_node (mkRules (Some [rule_of match_ref_main; rule_of match_ref_other])
                 None None None))
  = Eval_sample
      (mkRules None
         (Some (map not_node [rule_of match_ref_main; rule_of match_ref_other]))
         None None).
Proof.
  apply (NotRule_de_Morgan Sprintf_v_scalar json_Marshal_nil
           regexp_MatchString_prefix HMAC_SHA1_toy st_req (Some 0%nat) None
           (Some 1%nat) (Some body_hello)
           [rule_of match_ref_main; rule_of match_ref_other]).
  repeat constructor; [exists true | exists false]; vm_compute; reflexivity.
Defined.

Lemma ParseJSONParameters_errors_witness :
  ParseJSONParameters Sprintf_v_scalar json_Marshal_nil json_Decode_empty
    hook_json_missing st_req (Some 0%nat) None (Some 1%nat)
  = Ret (Some (ArgumentError (mkArgument "payload" "missing")), st_req)
  /\ ((exists msg, ArgumentError (mkArgument "payload" "missing")
                   = ParseError msg)
      \/ exists a, a ∈ JSONStringParameters hook_json_missing
           /\ (ArgumentError (mkArgument "payload" "missing") = ArgumentError a
               \/ (ArgumentError (mkArgument "payload" "missing") = SourceError a
                   /\ (Source a = SourceString
                       \/ Source a = SourceEntirePayload
                       \/ Source a = SourceEntireHeaders
                       \/ Source a = SourceEntireQuery)))).
Proof.
  assert (H : ParseJSONParameters Sprintf_v_scalar json_Marshal_nil
                json_Decode_empty hook_json_missing st_req (Some 0%nat) None
                (Some 1%nat)
              = Ret (Some (ArgumentError (mkArgument "payload" "missing")),
                     st_req))
    by (vm_compute; reflexivity).
  split; [exact H|].
  exact (ParseJSONParameters_errors Sprintf_v_scalar json_Marshal_nil
           json_Decode_empty (Some 0%nat) None (Some 1%nat) hook_json_missing
           st_req st_req _ H).
Defined.

Lemma ParseJSONParameters_top_level_witness :
  exists st2,
    ParseJSONParameters Sprintf_v_scalar json_Marshal_nil json_Decode_empty
      hook_json_header st_json (Some 0%nat) None None = Ret (None, st2)
    /\ GetParameter st2 "a" (VMap 0%nat)
       = Ret (VMap (fresh (dom st_json)), true)
    /\ (forall l', l' <> 0%nat ->
                   deref st2 l'
                   = deref (<[fresh (dom st_json) := ∅]> st_json) l').
Proof.
  apply (ParseJSONParameters_top_level Sprintf_v_scalar json_Marshal_nil
           json_Decode_empty (Some 0%nat) None None hook_json_header st_json
           (<[fresh (dom st_json) := ∅]> st_json)
           (mkArgument "header" "a") 0%nat "{}"
           (VMap (fresh (dom st_json)))).
  - reflexivity.
  - left. split; reflexivity.
  - reflexivity.
  - vm_compute. reflexivity.
  - reflexivity.
  - vm_compute. reflexivity.
Defined.

Lemma ExtractCommandArguments_shape_witness :
  exists tl,
    ["/bin/run"; "main"; ""] = ExecuteCommand hook_args :: tl
    /\ (length tl <= length (PassArgumentsToCommand hook_args))%nat
    /\ (Some (ArgumentError (mkArgument "payload" "missing")) = None ->
        length tl = length (PassArgumentsToCommand hook_args))
    /\ (forall e,
          Some (ArgumentError (mkArgument "payload" "missing")) = Some e ->
          last ["/bin/run"; "main"; ""] = Some EmptyString
          /\ exists a, a ∈ PassArgumentsToCommand hook_args
                       /\ e = ArgumentError a).
Proof.
  apply (ExtractCommandArguments_shape Sprintf_v_scalar json_Marshal_nil
           st_req (Some 0%nat) None (Some 1%nat) hook_args).
  vm_compute. reflexivity.
Defined.

Lemma ExtractCommandArgumentsForEnv_shape_witness :
  Forall (fun s => String.prefix "HOOK_" s = true) ["HOOK_n=x"]
  /\ (Some (ArgumentError (mkArgument "payload" "missing")) = None ->
      length ["HOOK_n=x"] = length (PassEnvironmentToCommand hook_args))
  /\ (forall e,
        Some (ArgumentError (mkArgument "payload" "missing")) = Some e ->
        (length ["HOOK_n=x"] < length (PassEnvironmentToCommand hook_args))%nat
        /\ exists a, a ∈ PassEnvironmentToCommand hook_args
                     /\ e = ArgumentError a).
Proof.
  apply (ExtractCommandArgumentsForEnv_shape Sprintf_v_scalar json_Marshal_nil
           st_req (Some 0%nat) None (Some 1%nat) hook_args).
  vm_compute. reflexivity.
Defined.

Lemma ResponseHeaders_Set_String_witness :
  ResponseHeaders_Set [mkHeader "X-A" "1"] "X-B=2=3"
  = ([mkHeader "X-A" "1"; mkHeader "X-B" "2=3"], None)
  /\ ResponseHeaders_String [mkHeader "X-A" "1"; mkHeader "X-B" "2=3"]
     = "X-A=1, X-B=2=3".
Proof.
  assert (H : ResponseHeaders_Set [mkHeader "X-A" "1"] "X-B=2=3"
              = ([mkHeader "X-A" "1"; mkHeader "X-B" "2=3"], None))
    by reflexivity.
  split; [exact H|].
  exact (ResponseHeaders_Set_String _ _ _ H).
Defined.

Lemma Rules_Evaluate_error_from_leaf_witness :
  exists m b',
    m ∈ Rules_leaves
          (mkRules (Some [rule_of match_ref_main;
                          not_node (rule_of match_signature)])
             None None None)
    /\ MatchRule_Evaluate Sprintf_v_scalar json_Marshal_nil
         regexp_MatchString_prefix HMAC_SHA1_toy st_req (Some 0%nat) None
         (Some 1%nat) (Some body_hello) m
       = Ret (b', Some (SignatureError "7305")).
Proof.
  apply (Rules_Evaluate_error_from_leaf Sprintf_v_scalar json_Marshal_nil
           regexp_MatchString_prefix HMAC_SHA1_toy st_req (Some 0%nat) None
           (Some 1%nat) (Some body_hello) _ false).
  vm_compute. reflexivity.
Defined.

Lemma Rules_Evaluate_panic_from_leaf_witness :
  exists m,
    m ∈ Rules_leaves
          (mkRules None
             (Some [rule_of match_ref_other;
                    not_node (rule_of match_below_string)])
             None None)
    /\ MatchRule_Evaluate Sprintf_v_scalar json_Marshal_nil
         regexp_MatchString_prefix HMAC_SHA1_toy st_req (Some 0%nat) None
         (Some 1%nat) (Some body_hello) m
       = Panic TypeAssertion.
Proof.
  apply (Rules_Evaluate_panic_from_leaf Sprintf_v_scalar json_Marshal_nil
           regexp_MatchString_prefix HMAC_SHA1_toy st_req (Some 0%nat) None
           (Some 1%nat) (Some body_hello)).
  vm_compute. reflexivity.
Defined.

Lemma Argument_Get_flat_name_witness :
  Argument_Get Sprintf_v_scalar json_Marshal_nil st_req
    (mkArgument "payload" "ref") (Some 0%nat) None (Some 1%nat)
  = match deref st_req 1%nat !! "ref" with
    | Some pValue => Ret (Sprintf_v_scalar st_req pValue, true)
    | None => Ret (EmptyString, false)
    end.
Proof.
  apply (Argument_Get_flat_name Sprintf_v_scalar json_Marshal_nil st_req
           (mkArgument "payload" "ref") (Some 0%nat) None (Some 1%nat) 1%nat).
  - right. left. split; reflexivity.
  - reflexivity.
Defined.
